(** * KuloSplit: the allocation engine and the bill lifecycle

    A shallow embedding of [src/App.tsx], [src/types.ts] and the storage
    service of the KuloSplit split-bill manager, with the properties of the
    allocation engine ([calculateShares]) and of the lifecycle handlers.

    Conventions of the embedding.

    - A JavaScript [number] is modelled twice.  In [Binary64] the
      allocation engine is written on IEEE 754 binary64 values with the
      rounded operations of the code, [NaN], the infinities and the sign of
      zero included: what depends on a guard of the engine, or on the order
      and grouping of its additions, is stated there.  Everywhere else a
      number is an exact rational ([Qc], canonical rationals with Leibniz
      equality): the handlers are written on it, and so is what holds of the
      code whatever it rounds, or up to rounding on bills whose amounts
      neither cancel nor overflow ([ordinaryBill]).
    - A JavaScript object used as a dictionary ([itemAssignments]) is a
      [gmap string (option string)]: an absent key reads [undefined], a key
      bound to [None] reads [null].
    - An array mutated in place through an alias obtained by [find] is a list
      updated at the index [find] stopped at.
    - React state is one record, [AppState]; a handler is a function from
      the state of the render it closes over to the next state.  Fresh
      identifiers, the clock and the answers of the platform are arguments.
    - Every handler builds new objects (spreads, [map], [filter]) and never
      writes into a bill, an item or a stored share it received, so bills and
      shares are values here; the only in-place writes, those of
      [calculateShares] into the shares it has just created, are updates of
      its local list. *)

From Stdlib Require Import Floats.
From Stdlib Require Import QArith Qpower Qcanon.
From stdpp Require Import base decidable option list strings gmap fin_maps numbers pretty.

Local Open Scope Qc_scope.

(** ** Data model ([src/types.ts]) *)

Record ReceiptItem := {
  item_id : string;
  item_name : string;
  quantity : Qc;
  price : Qc  (* total price of the line *)
}.

Record Participant := {
  participant_id : string;
  participant_name : string
}.

Record BillSession := {
  bill_id : string;
  createdAt : Z;
  description : option string;
  receiptImage : option (string * string);  (* dataUrl, mimeType *)
  extractedItems : list ReceiptItem;
  participants : list Participant;
  itemAssignments : gmap string (option string);
  taxAmount : Qc;
  serviceFeeAmount : Qc
}.

Record ParticipantShare := {
  participantId : string;
  participantName : string;
  items : list ReceiptItem;
  subtotal : Qc;
  taxShare : Qc;
  serviceFeeShare : Qc;
  totalOwed : Qc
}.

(** [StoredBillSession extends BillSession] with the optional
    [calculatedShares]. *)
Record StoredBillSession := {
  session : BillSession;
  calculatedShares : option (list ParticipantShare)
}.

Inductive AppStep :=
  | UPLOAD_RECEIPT
  | EDIT_BILL_DETAILS
  | VIEW_SUMMARY
  | VIEW_HISTORY.

Global Instance ReceiptItem_eq_dec : EqDecision ReceiptItem.
Proof. solve_decision. Defined.
Global Instance Participant_eq_dec : EqDecision Participant.
Proof. solve_decision. Defined.
Global Instance ParticipantShare_eq_dec : EqDecision ParticipantShare.
Proof. solve_decision. Defined.
Global Instance AppStep_eq_dec : EqDecision AppStep.
Proof. solve_decision. Defined.

(** ** The allocation engine ([calculateShares], [src/App.tsx]) *)

(** The number of a natural ([participants.length] used as a divisor). *)
Definition Qc_of_nat (n : nat) : Qc := Qc_of_Z (Z.of_nat n).

(** Truthiness of [itemAssignments[item.id]]: [undefined], [null] and the
    empty string are falsy; any other string is a participant id. *)
Definition assignedParticipant (assignments : gmap string (option string))
    (itemId : string) : option string :=
  match assignments !! itemId with
  | Some (Some pid) => if decide (pid = "") then None else Some pid
  | _ => None
  end.

(** The share every participant starts with. *)
Definition initialShare (p : Participant) : ParticipantShare :=
  {| participantId := participant_id p;
     participantName := participant_name p;
     items := [];
     subtotal := 0;
     taxShare := 0;
     serviceFeeShare := 0;
     totalOwed := 0 |}.

(** [share.items.push(item); share.subtotal += itemLineTotal]. *)
Definition pushItem (share : ParticipantShare) (item : ReceiptItem)
    : ParticipantShare :=
  {| participantId := participantId share;
     participantName := participantName share;
     items := items share ++ [item];
     subtotal := subtotal share + price item;
     taxShare := taxShare share;
     serviceFeeShare := serviceFeeShare share;
     totalOwed := totalOwed share |}.

(** [participantShares.find(s => s.participantId === pid)]: the first match,
    with the index it sits at (the object found is the one in the array). *)
Definition findShare (pid : string) (shares : list ParticipantShare)
    : option (nat * ParticipantShare) :=
  list_find (λ s, participantId s = pid) shares.

(** The body of [extractedItems.forEach], on the pair of the running
    [totalBillSubtotal] and the shares. *)
Definition processItem (assignments : gmap string (option string))
    (acc : Qc * list ParticipantShare) (item : ReceiptItem)
    : Qc * list ParticipantShare :=
  let itemLineTotal := price item in
  let totalBillSubtotal := acc.1 + itemLineTotal in
  match assignedParticipant assignments (item_id item) with
  | Some assignedParticipantId =>
      match findShare assignedParticipantId acc.2 with
      | Some (i, share) => (totalBillSubtotal, <[i := pushItem share item]> acc.2)
      | None => (totalBillSubtotal, acc.2)
      end
  | None => (totalBillSubtotal, acc.2)
  end.

Definition processItems (assignments : gmap string (option string))
    (its : list ReceiptItem) (acc : Qc * list ParticipantShare)
    : Qc * list ParticipantShare :=
  foldl (processItem assignments) acc its.

Definition setFees (tax fee : Qc) (share : ParticipantShare) : ParticipantShare :=
  {| participantId := participantId share;
     participantName := participantName share;
     items := items share;
     subtotal := subtotal share;
     taxShare := tax;
     serviceFeeShare := fee;
     totalOwed := totalOwed share |}.

(** The equal split of the degenerate branch. *)
Definition splitEqually (tax fee : Qc) (numParticipants : nat)
    (share : ParticipantShare) : ParticipantShare :=
  setFees (tax / Qc_of_nat numParticipants) (fee / Qc_of_nat numParticipants) share.

(** The proportional split of the normal branch. *)
Definition splitProportionally (tax fee totalBillSubtotal : Qc)
    (share : ParticipantShare) : ParticipantShare :=
  let proportion := subtotal share / totalBillSubtotal in
  setFees (tax * proportion) (fee * proportion) share.

(** The two-branch [if] after the loop. *)
Definition distributeFees (bill : BillSession) (totalBillSubtotal : Qc)
    (shares : list ParticipantShare) : list ParticipantShare :=
  if bool_decide (totalBillSubtotal = 0)
     && (bool_decide (0 < taxAmount bill) || bool_decide (0 < serviceFeeAmount bill))
  then
    let numParticipants := length (participants bill) in
    if bool_decide (0 < numParticipants)%nat
    then splitEqually (taxAmount bill) (serviceFeeAmount bill) numParticipants <$> shares
    else shares
  else if bool_decide (0 < totalBillSubtotal)
  then splitProportionally (taxAmount bill) (serviceFeeAmount bill) totalBillSubtotal <$> shares
  else shares.

(** [share.totalOwed = share.subtotal + share.taxShare + share.serviceFeeShare]. *)
Definition setTotalOwed (share : ParticipantShare) : ParticipantShare :=
  {| participantId := participantId share;
     participantName := participantName share;
     items := items share;
     subtotal := subtotal share;
     taxShare := taxShare share;
     serviceFeeShare := serviceFeeShare share;
     totalOwed := subtotal share + taxShare share + serviceFeeShare share |}.

(** The loop alone: the final [totalBillSubtotal] and the shares with their
    items and subtotals. *)
Definition collectItems (bill : BillSession) : Qc * list ParticipantShare :=
  processItems (itemAssignments bill) (extractedItems bill)
               (0, initialShare <$> participants bill).

Definition calculateShares (currentBill : option BillSession)
    : list ParticipantShare :=
  match currentBill with
  | None => []
  | Some bill =>
      if bool_decide (length (participants bill) = 0%nat) then []
      else
        let '(totalBillSubtotal, participantShares) := collectItems bill in
        setTotalOwed <$> distributeFees bill totalBillSubtotal participantShares
  end.

(** *** The same engine with the divisions checked

    In JavaScript a division by zero yields [Infinity] or [NaN] and poisons
    every sum it enters.  [divide] makes that outcome explicit: it fails
    exactly when the divisor is zero.  [calculateSharesChecked] is
    [calculateShares] with every [/] replaced by [divide]. *)

Definition divide (x y : Qc) : option Qc :=
  if bool_decide (y = 0) then None else Some (x / y).

Definition splitEquallyChecked (tax fee : Qc) (numParticipants : nat)
    (share : ParticipantShare) : option ParticipantShare :=
  t ← divide tax (Qc_of_nat numParticipants);
  f ← divide fee (Qc_of_nat numParticipants);
  Some (setFees t f share).

Definition splitProportionallyChecked (tax fee totalBillSubtotal : Qc)
    (share : ParticipantShare) : option ParticipantShare :=
  proportion ← divide (subtotal share) totalBillSubtotal;
  Some (setFees (tax * proportion) (fee * proportion) share).

Definition distributeFeesChecked (bill : BillSession) (totalBillSubtotal : Qc)
    (shares : list ParticipantShare) : option (list ParticipantShare) :=
  if bool_decide (totalBillSubtotal = 0)
     && (bool_decide (0 < taxAmount bill) || bool_decide (0 < serviceFeeAmount bill))
  then
    let numParticipants := length (participants bill) in
    if bool_decide (0 < numParticipants)%nat
    then mapM (splitEquallyChecked (taxAmount bill) (serviceFeeAmount bill) numParticipants) shares
    else Some shares
  else if bool_decide (0 < totalBillSubtotal)
  then mapM (splitProportionallyChecked (taxAmount bill) (serviceFeeAmount bill) totalBillSubtotal) shares
  else Some shares.

Definition calculateSharesChecked (currentBill : option BillSession)
    : option (list ParticipantShare) :=
  match currentBill with
  | None => Some []
  | Some bill =>
      if bool_decide (length (participants bill) = 0%nat) then Some []
      else
        let '(totalBillSubtotal, participantShares) := collectItems bill in
        fmap (M := option) (fmap setTotalOwed)
             (distributeFeesChecked bill totalBillSubtotal participantShares)
  end.

(** ** Vocabulary of the properties *)

(** The sum of a numeric field over a list. *)
Definition sumOf {A : Type} (f : A → Qc) (l : list A) : Qc :=
  foldr (λ x acc, f x + acc) 0 l.

(** The sum of all item prices of a bill: the value [totalBillSubtotal] has
    after the loop. *)
Definition billSubtotal (bill : BillSession) : Qc :=
  sumOf price (extractedItems bill).

Definition participantIds (bill : BillSession) : list string :=
  participant_id <$> participants bill.

(** An item is assigned when its entry names a participant of the bill. *)
Definition namesParticipant (assignments : gmap string (option string))
    (ids : list string) (item : ReceiptItem) : bool :=
  match assignedParticipant assignments (item_id item) with
  | Some pid => bool_decide (pid ∈ ids)
  | None => false
  end.

Definition isAssigned (bill : BillSession) (item : ReceiptItem) : bool :=
  namesParticipant (itemAssignments bill) (participantIds bill) item.

Definition assignedItems (bill : BillSession) : list ReceiptItem :=
  filter (λ item, isAssigned bill item = true) (extractedItems bill).

(** Amounts written as integers. *)
Definition amount (z : Z) : Qc := Qc_of_Z z.

Definition mkItem (id : string) (p : Z) : ReceiptItem :=
  {| item_id := id; item_name := id; quantity := 1; price := amount p |}.

Definition mkParticipant (id : string) : Participant :=
  {| participant_id := id; participant_name := id |}.

Definition mkBill (its : list ReceiptItem) (ps : list Participant)
    (assignments : gmap string (option string)) (tax fee : Z) : BillSession :=
  {| bill_id := "bill"; createdAt := 0; description := None; receiptImage := None;
     extractedItems := its; participants := ps; itemAssignments := assignments;
     taxAmount := amount tax; serviceFeeAmount := amount fee |}.

Definition mkShare (id : string) (its : list ReceiptItem) (sub tax fee owed : Z)
    : ParticipantShare :=
  {| participantId := id; participantName := id; items := its;
     subtotal := amount sub; taxShare := amount tax;
     serviceFeeShare := amount fee; totalOwed := amount owed |}.

(** ** The storage service ([services/storageService.ts])

    What [localStorage] holds under [LOCAL_STORAGE_BILLS_KEY] is either
    nothing, the JSON of a list of bills written by [saveBillsToStorage]
    (JSON is taken to round-trip a stored bill), or something [getItem] or
    [JSON.parse] throws on.  [setItemThrows] says whether a write is refused
    (quota, private mode); both exceptions are caught by the service. *)

Inductive StorageEntry :=
  | NoEntry
  | Bills (bills : list StoredBillSession)
  | Unreadable.

Record LocalStorage := {
  entry : StorageEntry;
  setItemThrows : bool
}.

Definition loadBillsFromStorage (ls : LocalStorage) : list StoredBillSession :=
  match entry ls with
  | Bills bills => bills
  | NoEntry => []
  | Unreadable => []  (* the [catch] branch *)
  end.

Definition saveBillsToStorage (bills : list StoredBillSession) (ls : LocalStorage)
    : LocalStorage :=
  if setItemThrows ls then ls  (* the [catch] branch *)
  else {| entry := Bills bills; setItemThrows := setItemThrows ls |}.

Definition addBillToStorage (bill : StoredBillSession) (ls : LocalStorage)
    : list StoredBillSession * LocalStorage :=
  let bills := loadBillsFromStorage ls in
  let updatedBills := bill :: bills in
  (updatedBills, saveBillsToStorage updatedBills ls).

Definition deleteBillFromStorage (billId : string) (ls : LocalStorage)
    : list StoredBillSession * LocalStorage :=
  let bills := loadBillsFromStorage ls in
  let updatedBills := filter (λ b, bill_id (session b) ≠ billId) bills in
  (updatedBills, saveBillsToStorage updatedBills ls).

Definition clearAllBillsFromStorage (ls : LocalStorage)
    : list StoredBillSession * LocalStorage :=
  ([], saveBillsToStorage [] ls).

(** ** The application state ([App], [src/App.tsx]) *)

Record AppState := {
  currentBill : option BillSession;
  appStep : AppStep;
  isLoading : bool;
  errorMessage : string;
  successMessage : string;
  historicalBills : list StoredBillSession;
  participantNameInput : string;
  viewingBillDetails : option StoredBillSession;
  localStorage : LocalStorage
}.

Definition setCurrentBill (v : option BillSession) (st : AppState) : AppState :=
  {| currentBill := v; appStep := appStep st; isLoading := isLoading st;
     errorMessage := errorMessage st; successMessage := successMessage st;
     historicalBills := historicalBills st;
     participantNameInput := participantNameInput st;
     viewingBillDetails := viewingBillDetails st; localStorage := localStorage st |}.

Definition setAppStep (v : AppStep) (st : AppState) : AppState :=
  {| currentBill := currentBill st; appStep := v; isLoading := isLoading st;
     errorMessage := errorMessage st; successMessage := successMessage st;
     historicalBills := historicalBills st;
     participantNameInput := participantNameInput st;
     viewingBillDetails := viewingBillDetails st; localStorage := localStorage st |}.

Definition setIsLoading (v : bool) (st : AppState) : AppState :=
  {| currentBill := currentBill st; appStep := appStep st; isLoading := v;
     errorMessage := errorMessage st; successMessage := successMessage st;
     historicalBills := historicalBills st;
     participantNameInput := participantNameInput st;
     viewingBillDetails := viewingBillDetails st; localStorage := localStorage st |}.

Definition setErrorMessage (v : string) (st : AppState) : AppState :=
  {| currentBill := currentBill st; appStep := appStep st; isLoading := isLoading st;
     errorMessage := v; successMessage := successMessage st;
     historicalBills := historicalBills st;
     participantNameInput := participantNameInput st;
     viewingBillDetails := viewingBillDetails st; localStorage := localStorage st |}.

Definition setSuccessMessage (v : string) (st : AppState) : AppState :=
  {| currentBill := currentBill st; appStep := appStep st; isLoading := isLoading st;
     errorMessage := errorMessage st; successMessage := v;
     historicalBills := historicalBills st;
     participantNameInput := participantNameInput st;
     viewingBillDetails := viewingBillDetails st; localStorage := localStorage st |}.

Definition setHistoricalBills (v : list StoredBillSession) (st : AppState) : AppState :=
  {| currentBill := currentBill st; appStep := appStep st; isLoading := isLoading st;
     errorMessage := errorMessage st; successMessage := successMessage st;
     historicalBills := v;
     participantNameInput := participantNameInput st;
     viewingBillDetails := viewingBillDetails st; localStorage := localStorage st |}.

Definition setParticipantNameInput (v : string) (st : AppState) : AppState :=
  {| currentBill := currentBill st; appStep := appStep st; isLoading := isLoading st;
     errorMessage := errorMessage st; successMessage := successMessage st;
     historicalBills := historicalBills st;
     participantNameInput := v;
     viewingBillDetails := viewingBillDetails st; localStorage := localStorage st |}.

Definition setViewingBillDetails (v : option StoredBillSession) (st : AppState) : AppState :=
  {| currentBill := currentBill st; appStep := appStep st; isLoading := isLoading st;
     errorMessage := errorMessage st; successMessage := successMessage st;
     historicalBills := historicalBills st;
     participantNameInput := participantNameInput st;
     viewingBillDetails := v; localStorage := localStorage st |}.

(** Not a React setter: the effect of the storage service on the browser. *)
Definition setLocalStorage (v : LocalStorage) (st : AppState) : AppState :=
  {| currentBill := currentBill st; appStep := appStep st; isLoading := isLoading st;
     errorMessage := errorMessage st; successMessage := successMessage st;
     historicalBills := historicalBills st;
     participantNameInput := participantNameInput st;
     viewingBillDetails := viewingBillDetails st; localStorage := v |}.

(** The spreads [{ ...currentBill, field: value }]. *)
Definition withExtractedItems (v : list ReceiptItem) (b : BillSession) : BillSession :=
  {| bill_id := bill_id b; createdAt := createdAt b; description := description b;
     receiptImage := receiptImage b; extractedItems := v;
     participants := participants b; itemAssignments := itemAssignments b;
     taxAmount := taxAmount b; serviceFeeAmount := serviceFeeAmount b |}.

Definition withParticipants (v : list Participant) (b : BillSession) : BillSession :=
  {| bill_id := bill_id b; createdAt := createdAt b; description := description b;
     receiptImage := receiptImage b; extractedItems := extractedItems b;
     participants := v; itemAssignments := itemAssignments b;
     taxAmount := taxAmount b; serviceFeeAmount := serviceFeeAmount b |}.

Definition withItemAssignments (v : gmap string (option string)) (b : BillSession)
    : BillSession :=
  {| bill_id := bill_id b; createdAt := createdAt b; description := description b;
     receiptImage := receiptImage b; extractedItems := extractedItems b;
     participants := participants b; itemAssignments := v;
     taxAmount := taxAmount b; serviceFeeAmount := serviceFeeAmount b |}.

Definition withTaxAmount (v : Qc) (b : BillSession) : BillSession :=
  {| bill_id := bill_id b; createdAt := createdAt b; description := description b;
     receiptImage := receiptImage b; extractedItems := extractedItems b;
     participants := participants b; itemAssignments := itemAssignments b;
     taxAmount := v; serviceFeeAmount := serviceFeeAmount b |}.

Definition withServiceFeeAmount (v : Qc) (b : BillSession) : BillSession :=
  {| bill_id := bill_id b; createdAt := createdAt b; description := description b;
     receiptImage := receiptImage b; extractedItems := extractedItems b;
     participants := participants b; itemAssignments := itemAssignments b;
     taxAmount := taxAmount b; serviceFeeAmount := v |}.

Definition clearMessages (st : AppState) : AppState :=
  setSuccessMessage "" (setErrorMessage "" st).

(** *** What the summary screen shows

    [viewingBillDetails?.calculatedShares || calculateShares()]: an array,
    even an empty one, is truthy. *)
Definition summaryShares (st : AppState) : list ParticipantShare :=
  match viewingBillDetails st with
  | Some viewed =>
      match calculatedShares viewed with
      | Some shares => shares
      | None => calculateShares (currentBill st)
      end
  | None => calculateShares (currentBill st)
  end.

(** *** Editing the bill *)

(** [Object.entries(assignments).filter(([, pId]) => pId !== participantId)
    .reduce((acc, [itemId, pId]) => ({ ...acc, [itemId]: pId }), {})]. *)
Definition assignmentsWithout (pid : string)
    (assignments : gmap string (option string)) : gmap string (option string) :=
  foldl (λ acc entry, <[entry.1 := entry.2]> acc) ∅
        (filter (λ entry, entry.2 ≠ Some pid) (map_to_list assignments)).

Definition handleRemoveParticipant (pid : string) (st : AppState) : AppState :=
  match currentBill st with
  | None => st
  | Some bill =>
      setCurrentBill
        (Some (withItemAssignments
                 (assignmentsWithout pid (itemAssignments bill))
                 (withParticipants
                    (filter (λ p, participant_id p ≠ pid) (participants bill))
                    bill)))
        st
  end.

Definition handleUpdateItem (updatedItem : ReceiptItem) (st : AppState) : AppState :=
  match currentBill st with
  | None => st
  | Some bill =>
      setCurrentBill
        (Some (withExtractedItems
                 ((λ item, if decide (item_id item = item_id updatedItem)
                           then updatedItem else item) <$> extractedItems bill)
                 bill))
        st
  end.

(** [newId] is the value of [generateId()]. *)
Definition handleAddItem (newId : string) (st : AppState) : AppState :=
  match currentBill st with
  | None => st
  | Some bill =>
      let newItem :=
        {| item_id := newId; item_name := "New Item"; quantity := 1; price := 0 |} in
      setCurrentBill (Some (withExtractedItems (extractedItems bill ++ [newItem]) bill)) st
  end.

Definition handleRemoveItem (itemId : string) (st : AppState) : AppState :=
  match currentBill st with
  | None => st
  | Some bill =>
      let newAssignments := delete itemId (itemAssignments bill) in
      setCurrentBill
        (Some (withItemAssignments newAssignments
                 (withExtractedItems
                    (filter (λ item, item_id item ≠ itemId) (extractedItems bill))
                    bill)))
        st
  end.

(** The bill of [handleAssignItem]:
    [{ ...bill, itemAssignments: { ...assignments, [itemId]: participantId } }]. *)
Definition assignItem (itemId : string) (pid : option string) (bill : BillSession)
    : BillSession :=
  withItemAssignments (<[itemId := pid]> (itemAssignments bill)) bill.

Definition handleAssignItem (itemId : string) (pid : option string) (st : AppState)
    : AppState :=
  match currentBill st with
  | None => st
  | Some bill => setCurrentBill (Some (assignItem itemId pid bill)) st
  end.

(** [Math.max(0, amount)]. *)
Definition max0 (a : Qc) : Qc := if bool_decide (0 < a) then a else 0.

Definition handleUpdateTax (a : Qc) (st : AppState) : AppState :=
  match currentBill st with
  | None => st
  | Some bill => setCurrentBill (Some (withTaxAmount (max0 a) bill)) st
  end.

Definition handleUpdateServiceFee (a : Qc) (st : AppState) : AppState :=
  match currentBill st with
  | None => st
  | Some bill => setCurrentBill (Some (withServiceFeeAmount (max0 a) bill)) st
  end.

(** *** Summary, saving and history *)

(** [extractedItems.filter(item => !itemAssignments[item.id])]. *)
Definition unassignedItems (bill : BillSession) : list ReceiptItem :=
  filter (λ item, assignedParticipant (itemAssignments bill) (item_id item) = None)
         (extractedItems bill).

Definition unassignedMessage (n : nat) : string :=
  "Please assign all items. " +:+ pretty n +:+ " item(s) are unassigned.".

Definition handleViewSummary (st : AppState) : AppState :=
  let st := clearMessages st in
  match currentBill st with
  | None => setErrorMessage "No bill data available." st
  | Some bill =>
      if bool_decide (length (participants bill) = 0%nat)
      then setErrorMessage "Please add participants before viewing summary." st
      else if bool_decide (length (extractedItems bill) = 0%nat)
      then setErrorMessage "Please add items to the bill." st
      else
        let unassigned := unassignedItems bill in
        if bool_decide (0 < length unassigned)%nat
           && bool_decide (0 < length (participants bill))%nat
        then setErrorMessage (unassignedMessage (length unassigned)) st
        else setAppStep VIEW_SUMMARY st
  end.

Definition handleSaveBill (st : AppState) : AppState :=
  let cleared := clearMessages st in
  match currentBill st with
  | None => cleared
  | Some bill =>
      let finalShares := calculateShares (currentBill st) in
      let billToSave := {| session := bill; calculatedShares := Some finalShares |} in
      let '(updatedHistory, storage) := addBillToStorage billToSave (localStorage st) in
      setAppStep UPLOAD_RECEIPT
        (setCurrentBill None
           (setSuccessMessage "Bill saved successfully!"
              (setHistoricalBills updatedHistory
                 (setLocalStorage storage cleared))))
  end.

Definition startNewBill (st : AppState) : AppState :=
  setAppStep UPLOAD_RECEIPT
    (setViewingBillDetails None (setCurrentBill None (clearMessages st))).

Definition viewBillFromHistory (billId : string) (st : AppState) : AppState :=
  let cleared := clearMessages st in
  match list_find (λ b, bill_id (session b) = billId) (historicalBills st) with
  | Some (_, bill) => setAppStep VIEW_SUMMARY (setViewingBillDetails (Some bill) cleared)
  | None => cleared
  end.

Definition handleDeleteBill (billId : string) (st : AppState) : AppState :=
  let cleared := clearMessages st in
  let '(updatedHistory, storage) := deleteBillFromStorage billId (localStorage st) in
  let st1 :=
    setSuccessMessage "Bill deleted."
      (setHistoricalBills updatedHistory (setLocalStorage storage cleared)) in
  match viewingBillDetails st with
  | Some viewed =>
      if decide (bill_id (session viewed) = billId)
      then setAppStep VIEW_HISTORY (setViewingBillDetails None st1)
      else st1
  | None => st1
  end.

(** [confirmed] is the answer of [window.confirm]. *)
Definition handleClearHistory (confirmed : bool) (st : AppState) : AppState :=
  let cleared := clearMessages st in
  if confirmed then
    let '(updatedHistory, storage) := clearAllBillsFromStorage (localStorage st) in
    setAppStep UPLOAD_RECEIPT
      (setSuccessMessage "All bill history cleared."
         (setHistoricalBills updatedHistory (setLocalStorage storage cleared)))
  else cleared.

(** The effect run on mount. *)
Definition mountEffect (st : AppState) : AppState :=
  let st1 := setHistoricalBills (loadBillsFromStorage (localStorage st)) st in
  if bool_decide (0 < length (loadBillsFromStorage (localStorage st)))%nat
  then setAppStep UPLOAD_RECEIPT st1
  else st1.

(** The state effects of [handleShareToWhatsApp]; the message text and the
    window it opens are not part of the state. *)
Definition handleShareToWhatsApp (st : AppState) : AppState :=
  match viewingBillDetails st, currentBill st with
  | None, None => setErrorMessage "No bill data to share." st
  | _, _ =>
      if bool_decide (length (summaryShares st) = 0%nat)
      then setErrorMessage "No participant shares to display for sharing." st
      else setSuccessMessage
             "Bill details prepared for WhatsApp. If it didn't open, ensure WhatsApp is accessible."
             st
  end.

(** The history button of the header, and the Back buttons. *)
Definition showHistory (st : AppState) : AppState :=
  setViewingBillDetails None (setAppStep VIEW_HISTORY (clearMessages st)).

Definition summaryBack (st : AppState) : AppState :=
  match viewingBillDetails st with
  | Some _ => setAppStep VIEW_HISTORY (setViewingBillDetails None st)
  | None => setAppStep EDIT_BILL_DETAILS st
  end.

Definition editBack (st : AppState) : AppState := setAppStep UPLOAD_RECEIPT st.

(** *** Receipt upload and analysis ([handleImageUpload])

    The handler is asynchronous; each of its synchronous stretches is one
    function.  The answer of the analyzer is an argument. *)

Record GeminiParsedResponseItem := {
  parsed_name : string;
  parsed_quantity : Qc;
  parsed_price : Qc
}.

Record GeminiParsedResponse := {
  parsed_items : list GeminiParsedResponseItem;
  parsed_subtotal : option Qc;
  parsed_tax : option Qc;
  parsed_serviceFee : option Qc;
  parsed_total : option Qc
}.

(** Up to [setIsLoading(true)]. *)
Definition handleImageUpload (fileType : string) (st : AppState) : AppState :=
  let st := clearMessages st in
  if negb (String.prefix "image/" fileType)
  then setErrorMessage "Please upload a valid image file." st
  else setIsLoading true st.

(** [reader.onloadend], up to the call of the analyzer.  [today] is the
    text of [`Bill from ${new Date().toLocaleDateString()}`]. *)
Definition onloadend (newBillId : string) (now : Z) (today : string)
    (dataUrl fileType : string) (st : AppState) : AppState :=
  setCurrentBill
    (Some {| bill_id := newBillId; createdAt := now;
             description := Some today;
             receiptImage := Some (dataUrl, fileType);
             extractedItems := []; participants := [];
             itemAssignments := ∅; taxAmount := 0; serviceFeeAmount := 0 |})
    st.

(** [freshId k] is the identifier [generateId()] gives to the k-th item. *)
Definition updateBillFromAnalysis (analysis : GeminiParsedResponse)
    (billId : string) (now : Z) (today : string) (freshId : nat → string)
    (st : AppState) : AppState :=
  let baseBill :=
    match currentBill st with
    | Some prev => prev
    | None =>
        {| bill_id := billId; createdAt := now; description := Some today;
           receiptImage := None; extractedItems := []; participants := [];
           itemAssignments := ∅; taxAmount := 0; serviceFeeAmount := 0 |}
    end in
  setCurrentBill
    (Some (withServiceFeeAmount (default 0 (parsed_serviceFee analysis))
             (withTaxAmount (default 0 (parsed_tax analysis))
                (withExtractedItems
                   (imap (λ k item,
                            {| item_id := freshId k;
                               item_name := parsed_name item;
                               quantity := parsed_quantity item;
                               price := parsed_price item |})
                         (parsed_items analysis))
                   baseBill))))
    st.

Definition analysisResolved (analysis : GeminiParsedResponse)
    (billId : string) (now : Z) (today : string) (freshId : nat → string)
    (st : AppState) : AppState :=
  setIsLoading false
    (setSuccessMessage "Receipt analyzed successfully!"
       (setAppStep EDIT_BILL_DETAILS
          (updateBillFromAnalysis analysis billId now today freshId st))).

Definition analysisRejected (message : string) (st : AppState) : AppState :=
  setIsLoading false (setAppStep EDIT_BILL_DETAILS (setErrorMessage message st)).

(** *** Handlers that depend on the platform or on [constants.ts]

    [trim] and [toLowerCase] are the string methods of the platform;
    [DEFAULT_SERVICE_FEE_PERCENTAGE] is the constant of [constants.ts]. *)

Section Platform.
Context (trim toLowerCase : string → string).
Context (DEFAULT_SERVICE_FEE_PERCENTAGE : Qc).

(** [newId] is the value of [generateId()]. *)
Definition handleAddParticipant (newId : string) (st : AppState) : AppState :=
  let cleared := clearMessages st in
  match currentBill st with
  | None => cleared
  | Some bill =>
      if decide (trim (participantNameInput st) = EmptyString) then cleared
      else if bool_decide
                (is_Some (list_find
                            (λ p, toLowerCase (participant_name p)
                                  = toLowerCase (trim (participantNameInput st)))
                            (participants bill)))
      then setErrorMessage "Participant with this name already exists." cleared
      else
        let newParticipant :=
          {| participant_id := newId;
             participant_name := trim (participantNameInput st) |} in
        setParticipantNameInput EmptyString
          (setCurrentBill
             (Some (withParticipants (participants bill ++ [newParticipant]) bill))
             cleared)
  end.

Definition handleSetDefaultServiceFee (st : AppState) : AppState :=
  match currentBill st with
  | None => st
  | Some bill =>
      let subtotal := foldl (λ sum item, sum + price item) 0 (extractedItems bill) in
      if bool_decide (0 < subtotal)
      then handleUpdateServiceFee (subtotal * DEFAULT_SERVICE_FEE_PERCENTAGE) st
      else setErrorMessage
             "Cannot calculate default service fee without items or non-zero prices."
             st
  end.

(** *** One step of the application: what the user or the platform does *)

Inductive Event :=
  | Mount
  | ImageUpload (fileType : string)
  | Onloadend (newBillId : string) (now : Z) (today dataUrl fileType : string)
  | AnalysisResolved (analysis : GeminiParsedResponse) (billId : string)
                     (now : Z) (today : string) (freshId : nat → string)
  | AnalysisRejected (message : string)
  | TypeParticipantName (text : string)
  | AddParticipant (newId : string)
  | RemoveParticipant (pid : string)
  | UpdateItem (updatedItem : ReceiptItem)
  | AddItem (newId : string)
  | RemoveItem (itemId : string)
  | AssignItem (itemId : string) (pid : option string)
  | UpdateTax (a : Qc)
  | UpdateServiceFee (a : Qc)
  | SetDefaultServiceFee
  | ViewSummary
  | SaveBill
  | StartNewBill
  | ViewBillFromHistory (billId : string)
  | DeleteBill (billId : string)
  | ClearHistory (confirmed : bool)
  | ShareToWhatsApp
  | ShowHistory
  | SummaryBack
  | EditBack
  | DismissError
  | DismissSuccess.

Definition step (ev : Event) (st : AppState) : AppState :=
  match ev with
  | Mount => mountEffect st
  | ImageUpload fileType => handleImageUpload fileType st
  | Onloadend newBillId now today dataUrl fileType =>
      onloadend newBillId now today dataUrl fileType st
  | AnalysisResolved analysis billId now today freshId =>
      analysisResolved analysis billId now today freshId st
  | AnalysisRejected message => analysisRejected message st
  | TypeParticipantName text => setParticipantNameInput text st
  | AddParticipant newId => handleAddParticipant newId st
  | RemoveParticipant pid => handleRemoveParticipant pid st
  | UpdateItem updatedItem => handleUpdateItem updatedItem st
  | AddItem newId => handleAddItem newId st
  | RemoveItem itemId => handleRemoveItem itemId st
  | AssignItem itemId pid => handleAssignItem itemId pid st
  | UpdateTax a => handleUpdateTax a st
  | UpdateServiceFee a => handleUpdateServiceFee a st
  | SetDefaultServiceFee => handleSetDefaultServiceFee st
  | ViewSummary => handleViewSummary st
  | SaveBill => handleSaveBill st
  | StartNewBill => startNewBill st
  | ViewBillFromHistory billId => viewBillFromHistory billId st
  | DeleteBill billId => handleDeleteBill billId st
  | ClearHistory confirmed => handleClearHistory confirmed st
  | ShareToWhatsApp => handleShareToWhatsApp st
  | ShowHistory => showHistory st
  | SummaryBack => summaryBack st
  | EditBack => editBack st
  | DismissError => setErrorMessage EmptyString st
  | DismissSuccess => setSuccessMessage EmptyString st
  end.

(** A run: the events in the order they happen. *)
Definition run (evs : list Event) (st : AppState) : AppState :=
  foldl (λ st ev, step ev st) st evs.
(** The selector of the edit screen offers the participants of the bill
    (and an empty choice, sent as [null]). *)
Definition fromSelector (st : AppState) (ev : Event) : Prop :=
  match ev with
  | AssignItem _ (Some pid) =>
      ∃ bill, currentBill st = Some bill ∧ pid ∈ participant_id <$> participants bill
  | _ => True
  end.
End Platform.

(** ** Vocabulary of the lifecycle properties *)

(** The state the component starts in (the [useState] defaults). *)
Definition initialState (storage : LocalStorage) : AppState :=
  {| currentBill := None; appStep := UPLOAD_RECEIPT; isLoading := false;
     errorMessage := EmptyString; successMessage := EmptyString;
     historicalBills := []; participantNameInput := EmptyString;
     viewingBillDetails := None; localStorage := storage |}.

Definition emptyStorage : LocalStorage :=
  {| entry := NoEntry; setItemThrows := false |}.

(** The edit screen with [bill] in progress. *)
Definition editing (bill : BillSession) : AppState :=
  setAppStep EDIT_BILL_DETAILS (setCurrentBill (Some bill) (initialState emptyStorage)).

(** An item has an assignment when [itemAssignments[item.id]] is truthy:
    the key is present and bound to a nonempty participant id (the
    selector of the edit screen turns its empty value into [null]). *)
Definition hasAssignment (bill : BillSession) (item : ReceiptItem) : Prop :=
  is_Some (assignedParticipant (itemAssignments bill) (item_id item)).

(** The four gates of the summary. *)
Definition summaryGates (st : AppState) : Prop :=
  ∃ bill,
    currentBill st = Some bill
    ∧ participants bill ≠ []
    ∧ extractedItems bill ≠ []
    ∧ ∀ item, item ∈ extractedItems bill → hasAssignment bill item.

(** The gate that rejects, in the order the handler tests them, and the
    message of each. *)
Inductive GateFailure :=
  | NoBill
  | NoParticipants
  | NoItems
  | UnassignedItems (count : nat).

Definition gateMessage (failure : GateFailure) : string :=
  match failure with
  | NoBill => "No bill data available."
  | NoParticipants => "Please add participants before viewing summary."
  | NoItems => "Please add items to the bill."
  | UnassignedItems count => unassignedMessage count
  end.

Inductive violates (st : AppState) : GateFailure → Prop :=
  | violates_bill :
      currentBill st = None → violates st NoBill
  | violates_participants bill :
      currentBill st = Some bill → participants bill = [] →
      violates st NoParticipants
  | violates_items bill :
      currentBill st = Some bill → participants bill ≠ [] →
      extractedItems bill = [] →
      violates st NoItems
  | violates_assignments bill :
      currentBill st = Some bill → participants bill ≠ [] →
      extractedItems bill ≠ [] →
      unassignedItems bill ≠ [] →
      violates st (UnassignedItems (length (unassignedItems bill))).

(** The bill as [handleSaveBill] stores it. *)
Definition savedBill (bill : BillSession) : StoredBillSession :=
  {| session := bill; calculatedShares := Some (calculateShares (Some bill)) |}.




(** No assignment of the bill points outside its participant list. *)
Definition wellAssigned (bill : BillSession) : Prop :=
  ∀ itemId pid,
    itemAssignments bill !! itemId = Some (Some pid) → pid ∈ participantIds bill.

Definition wellAssignedState (st : AppState) : Prop :=
  ∀ bill, currentBill st = Some bill → wellAssigned bill.

(** ** Vocabulary of the further properties *)

(** The items a participant id is charged for, in the order of the bill. *)
Definition itemsAssignedTo (bill : BillSession) (pid : string) : list ReceiptItem :=
  filter (λ item, assignedParticipant (itemAssignments bill) (item_id item) = Some pid)
         (extractedItems bill).

(** A share after [pushItem] of each item of a list, in order. *)
Definition addItems (share : ParticipantShare) (its : list ReceiptItem)
    : ParticipantShare :=
  {| participantId := participantId share;
     participantName := participantName share;
     items := items share ++ its;
     subtotal := subtotal share + sumOf price its;
     taxShare := taxShare share;
     serviceFeeShare := serviceFeeShare share;
     totalOwed := totalOwed share |}.





(** *** The edits of the bill in progress

    What one event makes of the bill in progress, when it changes it: one
    constructor per handler that calls [setCurrentBill] with a bill.
    [step_currentBill] below ties the relation to the handlers. *)

(** The bill [onloadend] creates, and the one [updateBillFromAnalysis] falls
    back on. *)
Definition emptyBill (billId : string) (now : Z) (today : string)
    (image : option (string * string)) : BillSession :=
  {| bill_id := billId; createdAt := now; description := Some today;
     receiptImage := image; extractedItems := []; participants := [];
     itemAssignments := ∅; taxAmount := 0; serviceFeeAmount := 0 |}.

(** The items [updateBillFromAnalysis] makes of the analyzer's items. *)
Definition analysedItems (freshId : nat → string) (analysis : GeminiParsedResponse)
    : list ReceiptItem :=
  imap (λ k item,
          {| item_id := freshId k;
             item_name := parsed_name item;
             quantity := parsed_quantity item;
             price := parsed_price item |})
       (parsed_items analysis).

Section Edits.
Context (trim toLowerCase : string → string).
Context (DEFAULT_SERVICE_FEE_PERCENTAGE : Qc).

Inductive billEdit (st : AppState) : Event → BillSession → Prop :=
  | edit_onloadend newBillId now today dataUrl fileType :
      billEdit st (Onloadend newBillId now today dataUrl fileType)
        (emptyBill newBillId now today (Some (dataUrl, fileType)))
  | edit_analysis analysis billId now today freshId :
      billEdit st (AnalysisResolved analysis billId now today freshId)
        (withServiceFeeAmount (default 0 (parsed_serviceFee analysis))
           (withTaxAmount (default 0 (parsed_tax analysis))
              (withExtractedItems (analysedItems freshId analysis)
                 (default (emptyBill billId now today None) (currentBill st)))))
  | edit_addParticipant newId bill :
      currentBill st = Some bill →
      trim (participantNameInput st) ≠ EmptyString →
      toLowerCase (trim (participantNameInput st))
        ∉ (λ p, toLowerCase (participant_name p)) <$> participants bill →
      billEdit st (AddParticipant newId)
        (withParticipants
           (participants bill
            ++ [{| participant_id := newId;
                   participant_name := trim (participantNameInput st) |}])
           bill)
  | edit_removeParticipant pid bill :
      currentBill st = Some bill →
      billEdit st (RemoveParticipant pid)
        (withItemAssignments (assignmentsWithout pid (itemAssignments bill))
           (withParticipants
              (filter (λ p, participant_id p ≠ pid) (participants bill)) bill))
  | edit_updateItem updatedItem bill :
      currentBill st = Some bill →
      billEdit st (UpdateItem updatedItem)
        (withExtractedItems
           ((λ item, if decide (item_id item = item_id updatedItem)
                     then updatedItem else item) <$> extractedItems bill)
           bill)
  | edit_addItem newId bill :
      currentBill st = Some bill →
      billEdit st (AddItem newId)
        (withExtractedItems
           (extractedItems bill
            ++ [{| item_id := newId; item_name := "New Item";
                   quantity := 1; price := 0 |}])
           bill)
  | edit_removeItem itemId bill :
      currentBill st = Some bill →
      billEdit st (RemoveItem itemId)
        (withItemAssignments (delete itemId (itemAssignments bill))
           (withExtractedItems
              (filter (λ item, item_id item ≠ itemId) (extractedItems bill)) bill))
  | edit_assignItem itemId pid bill :
      currentBill st = Some bill →
      billEdit st (AssignItem itemId pid) (assignItem itemId pid bill)
  | edit_updateTax a bill :
      currentBill st = Some bill →
      billEdit st (UpdateTax a) (withTaxAmount (max0 a) bill)
  | edit_updateServiceFee a bill :
      currentBill st = Some bill →
      billEdit st (UpdateServiceFee a) (withServiceFeeAmount (max0 a) bill)
  | edit_defaultServiceFee bill :
      currentBill st = Some bill →
      0 < billSubtotal bill →
      billEdit st SetDefaultServiceFee
        (withServiceFeeAmount
           (max0 (billSubtotal bill * DEFAULT_SERVICE_FEE_PERCENTAGE)) bill).

(** A run all of whose events satisfy [P] in the state they happen in. *)
Fixpoint allowed (P : AppState → Event → Prop) (st : AppState)
    (evs : list Event) : Prop :=
  match evs with
  | [] => True
  | ev :: evs =>
      P st ev
      ∧ allowed P (step trim toLowerCase DEFAULT_SERVICE_FEE_PERCENTAGE ev st) evs
  end.
End Edits.

(** What the interface guarantees of an event: [generateId] returns an id
    not in use; the selector of an item row names that item and offers the
    participants of the bill or nothing; and the analysis resolves on the
    bill [onloadend] created, which has no assignments (the edit screen is
    not shown while the receipt is loading). *)
Definition fromInterface (st : AppState) (ev : Event) : Prop :=
  match ev with
  | AddParticipant newId =>
      ∀ bill, currentBill st = Some bill → newId ∉ participantIds bill
  | AddItem newId =>
      ∀ bill, currentBill st = Some bill → newId ∉ item_id <$> extractedItems bill
  | AssignItem itemId pid =>
      ∀ bill, currentBill st = Some bill →
              itemId ∈ item_id <$> extractedItems bill
              ∧ (∀ p, pid = Some p → p ∈ participantIds bill)
  | AnalysisResolved analysis _ _ _ freshId =>
      NoDup (freshId <$> seq 0 (length (parsed_items analysis)))
      ∧ (∀ bill, currentBill st = Some bill → itemAssignments bill = ∅)
  | _ => True
  end.

(** The analyzer reports no negative tax or service fee. *)
Definition nonNegativeAnalysis (st : AppState) (ev : Event) : Prop :=
  match ev with
  | AnalysisResolved analysis _ _ _ _ =>
      0 ≤ default 0 (parsed_tax analysis)
      ∧ 0 ≤ default 0 (parsed_serviceFee analysis)
  | _ => True
  end.

(** The identifiers of the bill are pairwise distinct and every assignment
    links an item of the bill to a participant of the bill (or to nobody). *)
Definition wellFormedBill (bill : BillSession) : Prop :=
  NoDup (participantIds bill)
  ∧ NoDup (item_id <$> extractedItems bill)
  ∧ (∀ itemId, is_Some (itemAssignments bill !! itemId) →
               itemId ∈ item_id <$> extractedItems bill)
  ∧ wellAssigned bill.

(** The participant names of the bill are pairwise distinct up to case. *)
Definition uniqueNames (toLowerCase : string → string) (bill : BillSession) : Prop :=
  NoDup ((λ p, toLowerCase (participant_name p)) <$> participants bill).

Definition feesNonNegative (bill : BillSession) : Prop :=
  0 ≤ taxAmount bill ∧ 0 ≤ serviceFeeAmount bill.

(** A property of the bill in progress, when there is one. *)
Definition billInProgress (P : BillSession → Prop) (st : AppState) : Prop :=
  ∀ bill, currentBill st = Some bill → P bill.

(** [viewingBillDetails || currentBill] of [renderSummaryStep] is not null:
    the summary screen has a bill to display. *)
Definition billToDisplay (st : AppState) : option BillSession :=
  match viewingBillDetails st with
  | Some viewed => Some (session viewed)
  | None => currentBill st
  end.

Definition summaryHasBill (st : AppState) : Prop :=
  appStep st = VIEW_SUMMARY → is_Some (billToDisplay st).

(** ** The allocation engine on binary64 numbers

    [calculateShares] once more, with the numbers of the code: a JavaScript
    [number] is an IEEE 754 binary64 value ([float], the primitive type of
    the processor's doubles), [+], [*] and [/] are the correctly rounded
    operations, [===] and [>] are the IEEE comparisons ([NaN] equals
    nothing and [-0] equals [0]).  Nothing is left out: [NaN], the
    infinities and the sign of zero are values of [float].  The guards of
    the engine test the running [totalBillSubtotal] as the loop has rounded
    it, so the statements that depend on a guard, or on how sums are
    grouped, are made about this engine. *)

Module Binary64.
Local Open Scope float_scope.

Record ReceiptItem := {
  item_id : string;
  item_name : string;
  quantity : float;
  price : float  (* total price of the line *)
}.

Record BillSession := {
  bill_id : string;
  createdAt : Z;
  description : option string;
  receiptImage : option (string * string);  (* dataUrl, mimeType *)
  extractedItems : list ReceiptItem;
  participants : list Participant;
  itemAssignments : gmap string (option string);
  taxAmount : float;
  serviceFeeAmount : float
}.

Record ParticipantShare := {
  participantId : string;
  participantName : string;
  items : list ReceiptItem;
  subtotal : float;
  taxShare : float;
  serviceFeeShare : float;
  totalOwed : float
}.

(** [participants.length] as a number: the binary64 value nearest to the
    length (the length itself below 2^53). *)
Definition numberOfLength (n : nat) : float :=
  SF2Prim (binary_normalize prec emax (Z.of_nat n) 0 false).

(** The share every participant starts with. *)
Definition initialShare (p : Participant) : ParticipantShare :=
  {| participantId := participant_id p;
     participantName := participant_name p;
     items := [];
     subtotal := 0;
     taxShare := 0;
     serviceFeeShare := 0;
     totalOwed := 0 |}.

(** [share.items.push(item); share.subtotal += itemLineTotal]. *)
Definition pushItem (share : ParticipantShare) (item : ReceiptItem)
    : ParticipantShare :=
  {| participantId := participantId share;
     participantName := participantName share;
     items := items share ++ [item];
     subtotal := subtotal share + price item;
     taxShare := taxShare share;
     serviceFeeShare := serviceFeeShare share;
     totalOwed := totalOwed share |}.

(** [participantShares.find(s => s.participantId === pid)]: the first match,
    with the index it sits at. *)
Definition findShare (pid : string) (shares : list ParticipantShare)
    : option (nat * ParticipantShare) :=
  list_find (λ s, participantId s = pid) shares.

(** The body of [extractedItems.forEach], on the pair of the running
    [totalBillSubtotal] and the shares. *)
Definition processItem (assignments : gmap string (option string))
    (acc : float * list ParticipantShare) (item : ReceiptItem)
    : float * list ParticipantShare :=
  let itemLineTotal := price item in
  let totalBillSubtotal := acc.1 + itemLineTotal in
  match assignedParticipant assignments (item_id item) with
  | Some assignedParticipantId =>
      match findShare assignedParticipantId acc.2 with
      | Some (i, share) => (totalBillSubtotal, <[i := pushItem share item]> acc.2)
      | None => (totalBillSubtotal, acc.2)
      end
  | None => (totalBillSubtotal, acc.2)
  end.

Definition processItems (assignments : gmap string (option string))
    (its : list ReceiptItem) (acc : float * list ParticipantShare)
    : float * list ParticipantShare :=
  foldl (processItem assignments) acc its.

Definition setFees (tax fee : float) (share : ParticipantShare) : ParticipantShare :=
  {| participantId := participantId share;
     participantName := participantName share;
     items := items share;
     subtotal := subtotal share;
     taxShare := tax;
     serviceFeeShare := fee;
     totalOwed := totalOwed share |}.

(** The equal split of the degenerate branch. *)
Definition splitEqually (tax fee : float) (numParticipants : nat)
    (share : ParticipantShare) : ParticipantShare :=
  setFees (tax / numberOfLength numParticipants)
          (fee / numberOfLength numParticipants) share.

(** The proportional split of the normal branch. *)
Definition splitProportionally (tax fee totalBillSubtotal : float)
    (share : ParticipantShare) : ParticipantShare :=
  let proportion := subtotal share / totalBillSubtotal in
  setFees (tax * proportion) (fee * proportion) share.

(** The two-branch [if] after the loop: [totalBillSubtotal === 0 &&
    (taxAmount > 0 || serviceFeeAmount > 0)], then [totalBillSubtotal > 0]. *)
Definition distributeFees (bill : BillSession) (totalBillSubtotal : float)
    (shares : list ParticipantShare) : list ParticipantShare :=
  if (totalBillSubtotal =? 0)
     && ((0 <? taxAmount bill) || (0 <? serviceFeeAmount bill))
  then
    let numParticipants := length (participants bill) in
    if bool_decide (0 < numParticipants)%nat
    then splitEqually (taxAmount bill) (serviceFeeAmount bill) numParticipants <$> shares
    else shares
  else if 0 <? totalBillSubtotal
  then splitProportionally (taxAmount bill) (serviceFeeAmount bill) totalBillSubtotal <$> shares
  else shares.

(** [share.totalOwed = share.subtotal + share.taxShare + share.serviceFeeShare]. *)
Definition setTotalOwed (share : ParticipantShare) : ParticipantShare :=
  {| participantId := participantId share;
     participantName := participantName share;
     items := items share;
     subtotal := subtotal share;
     taxShare := taxShare share;
     serviceFeeShare := serviceFeeShare share;
     totalOwed := subtotal share + taxShare share + serviceFeeShare share |}.

(** The loop alone: the final [totalBillSubtotal] and the shares with their
    items and subtotals. *)
Definition collectItems (bill : BillSession) : float * list ParticipantShare :=
  processItems (itemAssignments bill) (extractedItems bill)
               (0, initialShare <$> participants bill).

Definition calculateShares (currentBill : option BillSession)
    : list ParticipantShare :=
  match currentBill with
  | None => []
  | Some bill =>
      if bool_decide (length (participants bill) = 0%nat) then []
      else
        let '(totalBillSubtotal, participantShares) := collectItems bill in
        setTotalOwed <$> distributeFees bill totalBillSubtotal participantShares
  end.

(** *** Vocabulary *)

(** [l.reduce((sum, x) => sum + f(x), 0)]: a sum taken from the left,
    starting at [0], every addition rounded. *)
Definition sum {A : Type} (f : A → float) (l : list A) : float :=
  foldl (λ acc x, acc + f x) 0 l.

(** The value [totalBillSubtotal] has after the loop: the item prices added
    in the order of the bill. *)
Definition totalBillSubtotal (bill : BillSession) : float :=
  sum price (extractedItems bill).

Definition participantIds (bill : BillSession) : list string :=
  participant_id <$> participants bill.

(** An item is assigned when its entry names a participant of the bill. *)
Definition namesParticipant (assignments : gmap string (option string))
    (ids : list string) (item : ReceiptItem) : bool :=
  match assignedParticipant assignments (item_id item) with
  | Some pid => bool_decide (pid ∈ ids)
  | None => false
  end.

Definition isAssigned (bill : BillSession) (item : ReceiptItem) : bool :=
  namesParticipant (itemAssignments bill) (participantIds bill) item.

Definition assignedItems (bill : BillSession) : list ReceiptItem :=
  filter (λ item, isAssigned bill item = true) (extractedItems bill).

(** Two numbers are the same value up to the sign of zero ([NaN] is the
    same as [NaN], [-0] the same as [0]). *)
Definition sameValueZero (x y : float) : Prop :=
  x = y ∨ (x =? y) = true.

(** The rational a finite binary64 value stands for; [NaN] and the
    infinities stand for none. *)
Definition value (x : float) : option Qc :=
  match Prim2SF x with
  | S754_zero _ => Some 0%Qc
  | S754_finite s m e =>
      Some (Q2Qc (inject_Z (if s then Z.neg m else Z.pos m) * Qpower 2 e))
  | S754_infinity _ | S754_nan => None
  end.

(** The addition [x + y] does not round: its result stands for the sum of
    what [x] and [y] stand for. *)
Definition exactAdd (x y : float) : bool :=
  match value x, value y, value (x + y) with
  | Some a, Some b, Some c => bool_decide (c = (a + b)%Qc)
  | _, _, _ => false
  end.

(** No addition rounds while the numbers of [l] are added to [acc] from
    the left. *)
Fixpoint addsExactly (acc : float) (l : list float) : bool :=
  match l with
  | [] => true
  | x :: l => exactAdd acc x && addsExactly (acc + x) l
  end.

(** No addition of [sum] over [l] rounds. *)
Definition exactSum (l : list float) : bool := addsExactly 0 l.

(** The sum, in exact arithmetic, of what the numbers of [l] stand for. *)
Definition exactTotal (l : list float) : Qc :=
  sumOf (λ x, default 0%Qc (value x)) l.

(** *** Concrete bills *)

Definition mkItem (id : string) (p : float) : ReceiptItem :=
  {| item_id := id; item_name := id; quantity := 1; price := p |}.

Definition mkBill (its : list ReceiptItem) (ps : list Participant)
    (assignments : gmap string (option string)) (tax fee : float) : BillSession :=
  {| bill_id := "bill"; createdAt := 0; description := None; receiptImage := None;
     extractedItems := its; participants := ps; itemAssignments := assignments;
     taxAmount := tax; serviceFeeAmount := fee |}.

Definition mkShare (id : string) (its : list ReceiptItem) (sub tax fee owed : float)
    : ParticipantShare :=
  {| participantId := id; participantName := id; items := its;
     subtotal := sub; taxShare := tax;
     serviceFeeShare := fee; totalOwed := owed |}.

(** Two items, 20000 for A and 30000 for B, tax 5000, no service fee. *)
Definition normalBill : BillSession :=
  mkBill [mkItem "i1" 20000; mkItem "i2" 30000]
         [mkParticipant "A"; mkParticipant "B"]
         (list_to_map [("i1", Some "A"); ("i2", Some "B")]) 5000 0.

(** Items that sum to zero, tax 90000, three participants. *)
Definition feeOnlyBill : BillSession :=
  mkBill [mkItem "i1" 0]
         [mkParticipant "A"; mkParticipant "B"; mkParticipant "C"]
         (list_to_map [("i1", Some "A")]) 90000 0.

(** A refund: the prices sum to -5000, with tax and service fee to pay. *)
Definition refundBill : BillSession :=
  mkBill [mkItem "i1" 5000; mkItem "i2" (-10000)]
         [mkParticipant "A"; mkParticipant "B"]
         (list_to_map [("i1", Some "A"); ("i2", Some "B")]) 1000 500.

(** Prices 0.1 for A, 0.2 and 0.3 for B, written as the quotients that
    round to the same numbers as the decimals. *)
Definition regroupedBill : BillSession :=
  mkBill [mkItem "i1" (1 / 10); mkItem "i2" (2 / 10); mkItem "i3" (3 / 10)]
         [mkParticipant "A"; mkParticipant "B"]
         (list_to_map [("i1", Some "A"); ("i2", Some "B"); ("i3", Some "B")]) 0 0.

(** One participant with items of 2^53 and 1. *)
Definition largeBill : BillSession :=
  mkBill [mkItem "i1" 9007199254740992; mkItem "i2" 1]
         [mkParticipant "A"]
         (list_to_map [("i1", Some "A"); ("i2", Some "A")]) 0 0.

(** Ordinary prices, 0.1, 0.2 and 0.3, one for each of three participants,
    with a tax of a third and a service fee of 0.7. *)
Definition decimalBill : BillSession :=
  mkBill [mkItem "i1" (1 / 10); mkItem "i2" (2 / 10); mkItem "i3" (3 / 10)]
         [mkParticipant "A"; mkParticipant "B"; mkParticipant "C"]
         (list_to_map [("i1", Some "A"); ("i2", Some "B"); ("i3", Some "C")])
         (1 / 3) (7 / 10).

(** Prices that cancel: 0.1 and 0.2 for A, -0.3 for B, tax 5000. *)
Definition cancellingBill : BillSession :=
  mkBill [mkItem "i1" (1 / 10); mkItem "i2" (2 / 10); mkItem "i3" (-(3 / 10))]
         [mkParticipant "A"; mkParticipant "B"]
         (list_to_map [("i1", Some "A"); ("i2", Some "A"); ("i3", Some "B")]) 5000 0.

(** Prices that sum to exactly zero, -1.2, -1.1, 1.1 and 1.2, with a tax of
    90000 and three participants. *)
Definition zeroSumBill : BillSession :=
  mkBill [mkItem "i1" (-(12 / 10)); mkItem "i2" (-(11 / 10));
          mkItem "i3" (11 / 10); mkItem "i4" (12 / 10)]
         [mkParticipant "A"; mkParticipant "B"; mkParticipant "C"]
         (list_to_map [("i1", Some "A"); ("i2", Some "B");
                       ("i3", Some "B"); ("i4", Some "A")]) 90000 0.
End Binary64.

(** ** Concrete bills *)

(** Two items, 20000 for A and 30000 for B, tax 5000, no service fee. *)
Definition normalBill : BillSession :=
  mkBill [mkItem "i1" 20000; mkItem "i2" 30000]
         [mkParticipant "A"; mkParticipant "B"]
         (list_to_map [("i1", Some "A"); ("i2", Some "B")]) 5000 0.

(** The same items with only A at the table and the second item left
    unassigned. *)
Definition partlyAssignedBill : BillSession :=
  mkBill [mkItem "i1" 20000; mkItem "i2" 30000]
         [mkParticipant "A"]
         (list_to_map [("i1", Some "A"); ("i2", None)]) 5000 0.

(** Items that sum to zero, tax 90000, three participants. *)
Definition feeOnlyBill : BillSession :=
  mkBill [mkItem "i1" 0]
         [mkParticipant "A"; mkParticipant "B"; mkParticipant "C"]
         (list_to_map [("i1", Some "A")]) 90000 0.


(** A refund: the prices sum to -5000, with tax and service fee to pay. *)
Definition refundBill : BillSession :=
  mkBill [mkItem "i1" 5000; mkItem "i2" (-10000)]
         [mkParticipant "A"; mkParticipant "B"]
         (list_to_map [("i1", Some "A"); ("i2", Some "B")]) 1000 500.

(** The second item still names Z, who is not (or no longer) a participant. *)
Definition danglingBill : BillSession :=
  mkBill [mkItem "i1" 20000; mkItem "i2" 30000]
         [mkParticipant "A"; mkParticipant "B"]
         (list_to_map [("i1", Some "A"); ("i2", Some "Z")]) 5000 0.

(** An old entry of the history whose stored shares are not what the
    engine computes for its bill today. *)
Definition oldEntry : StoredBillSession :=
  {| session := feeOnlyBill;
     calculatedShares := Some [mkShare "A" [] 0 90000 0 90000] |}.

(** The summary screen of [normalBill], with [oldEntry] in the history. *)
Definition summarizing : AppState :=
  setAppStep VIEW_SUMMARY
    (setHistoricalBills [oldEntry]
       (setCurrentBill (Some normalBill)
          (initialState {| entry := Bills [oldEntry]; setItemThrows := false |}))).

(** A session: a receipt with two items is analysed, Ann is added and
    gets the first item, and the summary is asked for. *)
Definition sampleAnalysis : GeminiParsedResponse :=
  {| parsed_items :=
       [ {| parsed_name := "Nasi"; parsed_quantity := 1; parsed_price := amount 20000 |};
         {| parsed_name := "Sate"; parsed_quantity := 2; parsed_price := amount 30000 |} ];
     parsed_subtotal := Some (amount 50000);
     parsed_tax := Some (amount 5000);
     parsed_serviceFee := None;
     parsed_total := None |}.

Definition sampleRun : list Event :=
  [ Mount;
    ImageUpload "image/png";
    Onloadend "b1" 0 "Bill" "data:" "image/png";
    AnalysisResolved sampleAnalysis "b1" 0 "Bill" (λ k, "item" +:+ pretty k);
    TypeParticipantName "Ann";
    AddParticipant "p1";
    AssignItem "item0" (Some "p1");
    UpdateTax (amount 6000);
    ViewSummary ].




(** ** Properties of the loop *)

Section Loop.
Context (assignments : gmap string (option string)).

Lemma sumOf_app {A} (f : A → Qc) (l k : list A) :
  sumOf f (l ++ k) = sumOf f l + sumOf f k.
Proof.
  induction l as [|x l IH]; simpl.
  - ring.
  - rewrite IH. ring.
Qed.

Lemma sumOf_insert {A} (f : A → Qc) (l : list A) (i : nat) (x y : A) :
  l !! i = Some x →
  sumOf f (<[i := y]> l) = sumOf f l + (f y - f x).
Proof.
  revert i. induction l as [|z l IH]; intros [|i] Hi; simplify_eq/=.
  - ring.
  - rewrite (IH i Hi). ring.
Qed.

Lemma findShare_Some pid shares i share :
  findShare pid shares = Some (i, share) →
  shares !! i = Some share ∧ participantId share = pid.
Proof. intros H. apply list_find_Some in H. tauto. Qed.

Lemma findShare_None pid shares :
  findShare pid shares = None ↔ pid ∉ participantId <$> shares.
Proof.
  unfold findShare. rewrite list_find_None, Forall_forall. split.
  - intros H (s & -> & Hs)%list_elem_of_fmap. by apply (H s).
  - intros H s Hs Heq. apply H, list_elem_of_fmap. eauto.
Qed.

(** One step of the loop, as a case analysis. *)
Lemma processItem_cases acc item :
  (∃ i share,
      namesParticipant assignments (participantId <$> acc.2) item = true ∧
      acc.2 !! i = Some share ∧
      assignedParticipant assignments (item_id item) = Some (participantId share) ∧
      processItem assignments acc item
        = (acc.1 + price item, <[i := pushItem share item]> acc.2))
  ∨ (namesParticipant assignments (participantId <$> acc.2) item = false ∧
     processItem assignments acc item = (acc.1 + price item, acc.2)).
Proof.
  unfold processItem, namesParticipant.
  destruct (assignedParticipant assignments (item_id item)) as [pid|] eqn:Ha;
    [|by right].
  destruct (findShare pid acc.2) as [[i share]|] eqn:Hf.
  - left. exists i, share. apply findShare_Some in Hf as [Hi Hp].
    split_and!; [|done|by subst|done].
    apply bool_decide_eq_true, list_elem_of_fmap.
    exists share. split; [done|]. by eapply list_elem_of_lookup_2.
  - right. split; [|done].
    apply bool_decide_eq_false. by apply findShare_None.
Qed.

Lemma pushItem_ids (shares : list ParticipantShare) (i : nat) share item :
  shares !! i = Some share →
  participantId <$> <[i := pushItem share item]> shares = participantId <$> shares.
Proof.
  intros Hi.
  rewrite list_fmap_insert. simpl. apply list_insert_id.
  by rewrite list_lookup_fmap, Hi.
Qed.

Lemma processItem_ids acc item :
  participantId <$> (processItem assignments acc item).2 = participantId <$> acc.2.
Proof.
  destruct (processItem_cases acc item) as [(i & share & _ & Hi & _ & ->)|[_ ->]];
    simpl; [by apply pushItem_ids|done].
Qed.

Lemma processItems_ids its acc :
  participantId <$> (processItems assignments its acc).2 = participantId <$> acc.2.
Proof.
  revert acc. induction its as [|item its IH]; intros acc; simpl; [done|].
  unfold processItems in *. simpl. rewrite IH. apply processItem_ids.
Qed.

(** The running total is the sum of all prices, whatever the assignments. *)
Lemma processItems_total its acc :
  (processItems assignments its acc).1 = acc.1 + sumOf price its.
Proof.
  revert acc. induction its as [|item its IH]; intros acc; simpl.
  - ring.
  - unfold processItems in *. simpl. rewrite IH.
    destruct (processItem_cases acc item) as [(i & share & _ & _ & _ & ->)|[_ ->]];
      simpl; ring.
Qed.



(** A field the loop never writes keeps its value in every share. *)
Lemma processItems_field {B} (f : ParticipantShare → B) its acc :
  (∀ share item, f (pushItem share item) = f share) →
  f <$> (processItems assignments its acc).2 = f <$> acc.2.
Proof.
  intros Hf. revert acc. induction its as [|item its IH]; intros acc; [done|].
  unfold processItems in *. simpl. rewrite IH.
  destruct (processItem_cases acc item) as [(i & share & _ & Hi & _ & ->)|[_ ->]];
    simpl; [|done].
  rewrite list_fmap_insert, Hf. apply list_insert_id.
  by rewrite list_lookup_fmap, Hi.
Qed.

(** A property of shares that survives [pushItem] of an item assigned to
    the share survives the loop. *)
Lemma processItems_Forall (P : ParticipantShare → Prop) its acc :
  (∀ share item,
      item ∈ its →
      assignedParticipant assignments (item_id item) = Some (participantId share) →
      P share → P (pushItem share item)) →
  Forall P acc.2 → Forall P (processItems assignments its acc).2.
Proof.
  revert acc. induction its as [|item its IH]; intros acc Hpush Hacc; [done|].
  unfold processItems in *. simpl. apply IH.
  - intros share item' Hin. apply Hpush. by right.
  - destruct (processItem_cases acc item) as [(i & share & _ & Hi & Ha & ->)|[_ ->]];
      simpl; [|done].
    apply Forall_insert; [done|]. apply Hpush; [by left|done|].
    eapply Forall_lookup_1; eauto.
Qed.

(** Changing the assignments of items that name no participant, to other
    assignments that name none, does not change the loop. *)
Lemma processItems_ext assignments' its acc :
  (∀ item, item ∈ its →
     assignedParticipant assignments (item_id item)
       = assignedParticipant assignments' (item_id item)
     ∨ (namesParticipant assignments (participantId <$> acc.2) item = false
        ∧ namesParticipant assignments' (participantId <$> acc.2) item = false)) →
  processItems assignments its acc = processItems assignments' its acc.
Proof.
  revert acc. induction its as [|item its IH]; intros acc Hext; [done|].
  assert (processItem assignments acc item = processItem assignments' acc item) as Hstep.
  { destruct (Hext item) as [Heq|[Hn Hn']]; [by left| |].
    - unfold processItem. by rewrite Heq.
    - unfold processItem, namesParticipant in *.
      destruct (assignedParticipant assignments (item_id item)) as [pid|];
        destruct (assignedParticipant assignments' (item_id item)) as [pid'|];
        try done.
      + apply bool_decide_eq_false, findShare_None in Hn, Hn'. by rewrite Hn, Hn'.
      + apply bool_decide_eq_false, findShare_None in Hn. by rewrite Hn.
      + apply bool_decide_eq_false, findShare_None in Hn'. by rewrite Hn'. }
  unfold processItems in *. simpl. rewrite <-Hstep. apply IH.
  intros item' Hin. rewrite processItem_ids. apply Hext. by right.
Qed.
End Loop.

(** ** Properties of the fee distribution *)

Lemma sumOf_ext_fmap {A B} (f : A → Qc) (g : B → Qc) (l : list A) (k : list B) :
  f <$> l = g <$> k → sumOf f l = sumOf g k.
Proof.
  revert k. induction l as [|x l IH]; intros [|y k] Heq; simplify_eq/=; [done|].
  f_equal; [done|]. by apply IH.
Qed.

Lemma sumOf_fmap {A B} (f : B → Qc) (g : A → B) (l : list A) :
  sumOf f (g <$> l) = sumOf (f ∘ g) l.
Proof. apply sumOf_ext_fmap. by rewrite <-list_fmap_compose. Qed.


Lemma Qc_of_nat_pos (n : nat) : (0 < n)%nat → 0 < Qc_of_nat n.
Proof.
  intros Hn. unfold Qc_of_nat. rewrite <-Z2Qc_inj_0.
  apply (proj1 (Z2Qc_inj_lt 0 (Z.of_nat n))). lia.
Qed.

Lemma Qclt_ne (x y : Qc) : x < y → y ≠ x.
Proof. intros Hlt Heq. subst y. by apply (irreflexivity Qclt x). Qed.




(** Every division of the engine has a nonzero divisor. *)
Lemma distributeFeesChecked_Some bill total shares :
  distributeFeesChecked bill total shares = Some (distributeFees bill total shares).
Proof.
  unfold distributeFeesChecked, distributeFees.
  destruct (bool_decide (total = 0) && _) eqn:Hdeg.
  - destruct (bool_decide (0 < length (participants bill))%nat) eqn:Hn; [|done].
    apply bool_decide_eq_true in Hn.
    apply mapM_Some, Forall2_fmap_r, Forall_Forall2_diag, Forall_forall.
    intros share _. unfold splitEquallyChecked, splitEqually, divide.
    rewrite bool_decide_eq_false_2; [done|].
    by apply Qclt_ne, Qc_of_nat_pos.
  - destruct (bool_decide (0 < total)) eqn:Hpos; [|done].
    apply bool_decide_eq_true in Hpos.
    apply mapM_Some, Forall2_fmap_r, Forall_Forall2_diag, Forall_forall.
    intros share _. unfold splitProportionallyChecked, splitProportionally, divide.
    rewrite bool_decide_eq_false_2; [done|]. by apply Qclt_ne.
Qed.

Lemma calculateSharesChecked_Some currentBill :
  calculateSharesChecked currentBill = Some (calculateShares currentBill).
Proof.
  destruct currentBill as [bill|]; [|done]. simpl.
  case_bool_decide; [done|].
  destruct (collectItems bill) as [total shares].
  by rewrite distributeFeesChecked_Some.
Qed.

(** ** The engine as a whole *)

Lemma collectItems_total bill : (collectItems bill).1 = billSubtotal bill.
Proof.
  unfold collectItems. rewrite processItems_total. simpl. unfold billSubtotal. ring.
Qed.

Lemma collectItems_ids bill :
  participantId <$> (collectItems bill).2 = participantIds bill.
Proof.
  unfold collectItems. rewrite processItems_ids. simpl.
  unfold participantIds. by rewrite <-list_fmap_compose.
Qed.

Lemma calculateShares_no_participants bill :
  participants bill = [] → calculateShares (Some bill) = [].
Proof. intros Hps. simpl. by rewrite Hps. Qed.

Lemma calculateShares_unfold bill :
  participants bill ≠ [] →
  calculateShares (Some bill)
  = setTotalOwed <$> distributeFees bill (billSubtotal bill) (collectItems bill).2.
Proof.
  intros Hps. simpl.
  rewrite bool_decide_eq_false_2 by (by destruct (participants bill)).
  rewrite <-collectItems_total. by destruct (collectItems bill).
Qed.

(** Neither the fee distribution nor the last pass touches [subtotal],
    [items] or the identity of a share. *)
Lemma distributeFees_field {B} (f : ParticipantShare → B) bill total shares :
  (∀ t fe share, f (setFees t fe share) = f share) →
  f <$> distributeFees bill total shares = f <$> shares.
Proof.
  intros Hf. unfold distributeFees.
  repeat case_match; try done;
    rewrite <-list_fmap_compose; apply list_fmap_ext; intros ? share _; apply Hf.
Qed.

Lemma calculateShares_field {B} (f : ParticipantShare → B) bill :
  (∀ t fe share, f (setFees t fe share) = f share) →
  (∀ share, f (setTotalOwed share) = f share) →
  participants bill ≠ [] →
  f <$> calculateShares (Some bill) = f <$> (collectItems bill).2.
Proof.
  intros Hfees Htot Hps. rewrite calculateShares_unfold by done.
  rewrite <-list_fmap_compose, <-(distributeFees_field f bill (billSubtotal bill)) by done.
  apply list_fmap_ext. intros ? share _. apply Htot.
Qed.



Lemma collectItems_items bill :
  Forall (λ share,
            subtotal share = sumOf price (items share) ∧
            Forall (λ item,
                      item ∈ extractedItems bill ∧
                      assignedParticipant (itemAssignments bill) (item_id item)
                        = Some (participantId share))
                   (items share))
         (collectItems bill).2.
Proof.
  apply processItems_Forall.
  - intros share item Hin Ha [Hsub Hitems]. simpl. split.
    + rewrite sumOf_app, Hsub. simpl. ring.
    + apply Forall_app. split; [done|]. by apply Forall_singleton.
  - simpl. apply Forall_fmap, Forall_true. intros p. simpl. split; [ring|done].
Qed.

(** Every share the engine returns comes from a share of the loop, with the
    same identity, items and subtotal, and owes the sum of its parts. *)
Lemma calculateShares_origin bill share :
  share ∈ calculateShares (Some bill) →
  participants bill ≠ [] ∧
  totalOwed share = subtotal share + taxShare share + serviceFeeShare share ∧
  ∃ share0 share1,
    share0 ∈ (collectItems bill).2 ∧
    share1 ∈ distributeFees bill (billSubtotal bill) (collectItems bill).2 ∧
    share = setTotalOwed share1 ∧
    participantId share = participantId share0 ∧
    items share = items share0 ∧
    subtotal share = subtotal share0 ∧
    (share1 = share0
     ∨ share1 = splitEqually (taxAmount bill) (serviceFeeAmount bill)
                             (length (participants bill)) share0
     ∨ share1 = splitProportionally (taxAmount bill) (serviceFeeAmount bill)
                                    (billSubtotal bill) share0).
Proof.
  intros Hin.
  destruct (decide (participants bill = [])) as [Hps|Hps].
  { rewrite calculateShares_no_participants in Hin by done. by apply elem_of_nil in Hin. }
  split; [done|].
  rewrite calculateShares_unfold in Hin by done.
  apply list_elem_of_fmap in Hin as (share1 & -> & Hin1).
  split; [done|].
  assert (∃ share0, share0 ∈ (collectItems bill).2 ∧
            (share1 = share0
             ∨ share1 = splitEqually (taxAmount bill) (serviceFeeAmount bill)
                                     (length (participants bill)) share0
             ∨ share1 = splitProportionally (taxAmount bill) (serviceFeeAmount bill)
                                            (billSubtotal bill) share0))
    as (share0 & Hin0 & Hcase).
  { revert Hin1. unfold distributeFees. repeat case_match.
    - intros (share0 & -> & ?)%list_elem_of_fmap. eauto.
    - eauto.
    - intros (share0 & -> & ?)%list_elem_of_fmap. eauto.
    - eauto. }
  exists share0, share1. split_and!; try done;
    destruct Hcase as [->|[->| ->]]; done.
Qed.

(** ** The claims about the allocation engine *)

Ltac by_evaluation :=
  lazymatch goal with
  | |- ?P => apply (bool_decide_unpack P); vm_compute; exact I
  end.


Lemma filter_all {A} (P : A → Prop) `{∀ x, Decision (P x)} (l : list A) :
  (∀ x, x ∈ l → P x) → filter P l = l.
Proof.
  induction l as [|x l IH]; intros Hall; [done|].
  rewrite filter_cons, decide_True by (apply Hall; by left).
  f_equal. apply IH. intros y Hy. apply Hall. by right.
Qed.

Lemma filter_none {A} (P : A → Prop) `{∀ x, Decision (P x)} (l : list A) :
  (∀ x, x ∈ l → ¬ P x) → filter P l = [].
Proof.
  induction l as [|x l IH]; intros Hnone; [done|].
  rewrite filter_cons, decide_False by (apply Hnone; by left).
  apply IH. intros y Hy. apply Hnone. by right.
Qed.









Lemma collectItems_assignItem_dangling bill item pid :
  itemAssignments bill !! item_id item = Some (Some pid) →
  pid ∉ participantIds bill →
  collectItems (assignItem (item_id item) None bill) = collectItems bill.
Proof.
  intros Hlook Hpid. unfold collectItems. simpl. symmetry.
  apply processItems_ext. intros item' _. simpl.
  rewrite <-list_fmap_compose.
  destruct (decide (item_id item' = item_id item)) as [Heq|Hne].
  - right. unfold namesParticipant, assignedParticipant.
    rewrite Heq, Hlook, lookup_insert_eq. split; [|done].
    case_decide; [done|]. by apply bool_decide_eq_false.
  - left. unfold assignedParticipant. by rewrite lookup_insert_ne.
Qed.

(** C10.  An item whose assignment names a participant id that is not in the
    participant list is treated like an unassigned item: the step of the
    loop adds its price to totalBillSubtotal and leaves the shares as they
    are; the item is in no share's item list and every subtotal is the sum of
    the prices in that list; the result is the one obtained with the item's
    assignment set to null; and the function returns normally. *)
Theorem calculateShares_dangling_assignment bill item pid :
  item ∈ extractedItems bill →
  itemAssignments bill !! item_id item = Some (Some pid) →
  pid ∉ participantIds bill →
  (∀ acc,
     participantId <$> acc.2 = participantIds bill →
     processItem (itemAssignments bill) acc item = (acc.1 + price item, acc.2))
  ∧ (collectItems bill).1 = billSubtotal bill
  ∧ (∀ share,
       share ∈ calculateShares (Some bill) →
       (item ∉ items share) ∧ subtotal share = sumOf price (items share))
  ∧ calculateShares (Some bill)
    = calculateShares (Some (assignItem (item_id item) None bill))
  ∧ calculateSharesChecked (Some bill) = Some (calculateShares (Some bill)).
Proof.
  intros Hitem Hlook Hpid. split_and!.
  - intros acc Hids.
    destruct (processItem_cases (itemAssignments bill) acc item)
      as [(i & share & _ & Hi & Ha & _)|[_ ->]]; [|done].
    exfalso. apply Hpid. unfold assignedParticipant in Ha.
    rewrite Hlook in Ha. case_decide; simplify_eq.
    rewrite <-Hids. apply list_elem_of_fmap. exists share.
    split; [done|]. by eapply list_elem_of_lookup_2.
  - apply collectItems_total.
  - intros share Hin.
    destruct (calculateShares_origin bill share Hin)
      as (_ & _ & share0 & _ & Hin0 & _ & _ & Hid & -> & -> & _).
    pose proof (collectItems_items bill) as Hitems.
    rewrite Forall_forall in Hitems.
    destruct (Hitems share0 Hin0) as [Hsub Hfrom]. split; [|done].
    intros Hmem. rewrite Forall_forall in Hfrom.
    destruct (Hfrom item Hmem) as [_ Ha].
    apply Hpid. unfold assignedParticipant in Ha.
    rewrite Hlook in Ha. case_decide; simplify_eq.
    rewrite <-collectItems_ids. apply list_elem_of_fmap. eauto.
  - unfold calculateShares.
    by rewrite (collectItems_assignItem_dangling bill item pid).
  - apply calculateSharesChecked_Some.
Qed.

Lemma calculateShares_dangling_assignment_witness :
  calculateShares (Some danglingBill)
  = calculateShares (Some (assignItem "i2" None danglingBill)).
Proof.
  refine (proj1 (proj2 (proj2 (proj2
            (calculateShares_dangling_assignment danglingBill (mkItem "i2" 30000) "Z"
               _ _ _))))).
  - by_evaluation.
  - by_evaluation.
  - by_evaluation.
Defined.

(** ** Properties of the engine on binary64 numbers *)

Section Binary64Engine.
Import Binary64.
Local Open Scope float_scope.

(** *** Comparisons with zero *)

Lemma positive_not_zero (x : float) : (0 <? x) = true → (x =? 0) = false.
Proof.
  rewrite FloatAxioms.ltb_spec, FloatAxioms.eqb_spec. change (Prim2SF 0) with (S754_zero false).
  by destruct (Prim2SF x) as [[]|[]| |[] m e].
Qed.

Lemma negative_not_zero (x : float) : (x <? 0) = true → (x =? 0) = false.
Proof.
  rewrite FloatAxioms.ltb_spec, FloatAxioms.eqb_spec. change (Prim2SF 0) with (S754_zero false).
  by destruct (Prim2SF x) as [[]|[]| |[] m e].
Qed.

Lemma negative_not_positive (x : float) : (x <? 0) = true → (0 <? x) = false.
Proof.
  rewrite !FloatAxioms.ltb_spec. change (Prim2SF 0) with (S754_zero false).
  by destruct (Prim2SF x) as [[]|[]| |[] m e].
Qed.

(** Adding [0] changes nothing but the sign of a negative zero. *)
Lemma add_zero_r (x : float) : x + 0 = x ∨ (x = neg_zero ∧ x + 0 = 0).
Proof.
  destruct (Prim2SF x) as [[]|s| |s m e] eqn:Hx.
  - right. assert (x = neg_zero) as ->; [|by split].
    rewrite <-(SF2Prim_Prim2SF x), Hx. reflexivity.
  - left. apply Prim2SF_inj. rewrite FloatAxioms.add_spec, Hx. reflexivity.
  - left. apply Prim2SF_inj. rewrite FloatAxioms.add_spec, Hx. reflexivity.
  - left. apply Prim2SF_inj. rewrite FloatAxioms.add_spec, Hx. reflexivity.
  - left. apply Prim2SF_inj. rewrite FloatAxioms.add_spec, Hx. reflexivity.
Qed.

Lemma add_zero_twice (x : float) : sameValueZero (x + 0 + 0) x.
Proof.
  destruct (add_zero_r x) as [->|[-> ->]].
  - destruct (add_zero_r x) as [->|[-> ->]]; [by left|by right].
  - by right.
Qed.
End Binary64Engine.

(** *** The loop *)

Section Binary64Loop.
Import Binary64.
Local Open Scope float_scope.
Context (assignments : gmap string (option string)).

Lemma b64_findShare_Some pid shares i share :
  findShare pid shares = Some (i, share) →
  shares !! i = Some share ∧ participantId share = pid.
Proof. intros H. apply list_find_Some in H. tauto. Qed.

Lemma b64_findShare_None pid shares :
  findShare pid shares = None ↔ pid ∉ participantId <$> shares.
Proof.
  unfold findShare. rewrite list_find_None, Forall_forall. split.
  - intros H (s & -> & Hs)%list_elem_of_fmap. by apply (H s).
  - intros H s Hs Heq. apply H, list_elem_of_fmap. eauto.
Qed.

(** One step of the loop, as a case analysis. *)
Lemma b64_processItem_cases acc item :
  (∃ i share,
      namesParticipant assignments (participantId <$> acc.2) item = true ∧
      acc.2 !! i = Some share ∧
      assignedParticipant assignments (item_id item) = Some (participantId share) ∧
      processItem assignments acc item
        = (acc.1 + price item, <[i := pushItem share item]> acc.2))
  ∨ (namesParticipant assignments (participantId <$> acc.2) item = false ∧
     processItem assignments acc item = (acc.1 + price item, acc.2)).
Proof.
  unfold processItem, namesParticipant.
  destruct (assignedParticipant assignments (item_id item)) as [pid|] eqn:Ha;
    [|by right].
  destruct (findShare pid acc.2) as [[i share]|] eqn:Hf.
  - left. exists i, share. apply b64_findShare_Some in Hf as [Hi Hp].
    split_and!; [|done|by subst|done].
    apply bool_decide_eq_true, list_elem_of_fmap.
    exists share. split; [done|]. by eapply list_elem_of_lookup_2.
  - right. split; [|done].
    apply bool_decide_eq_false. by apply b64_findShare_None.
Qed.

Lemma b64_processItems_cons item its acc :
  processItems assignments (item :: its) acc
  = processItems assignments its (processItem assignments acc item).
Proof. reflexivity. Qed.

Lemma b64_processItem_ids acc item :
  participantId <$> (processItem assignments acc item).2 = participantId <$> acc.2.
Proof.
  destruct (b64_processItem_cases acc item)
    as [(i & share & _ & Hi & _ & ->)|[_ ->]]; simpl; [|done].
  rewrite list_fmap_insert. simpl. apply list_insert_id.
  by rewrite list_lookup_fmap, Hi.
Qed.


(** The running total is the sum of the prices taken in the order of the
    list, whatever the assignments. *)
Lemma b64_processItems_total its acc :
  (processItems assignments its acc).1
  = foldl (λ total item, total + price item) acc.1 its.
Proof.
  revert acc. induction its as [|item its IH]; intros acc; [done|].
  rewrite b64_processItems_cons, IH. simpl.
  by destruct (b64_processItem_cases acc item)
    as [(i & share & _ & _ & _ & ->)|[_ ->]].
Qed.

(** A property of shares that survives [pushItem] survives the loop. *)
Lemma b64_processItems_Forall (P : ParticipantShare → Prop) its acc :
  (∀ share item, P share → P (pushItem share item)) →
  Forall P acc.2 → Forall P (processItems assignments its acc).2.
Proof.
  intros Hpush. revert acc. induction its as [|item its IH]; intros acc Hacc; [done|].
  rewrite b64_processItems_cons. apply IH.
  destruct (b64_processItem_cases acc item)
    as [(i & share & _ & Hi & _ & ->)|[_ ->]]; simpl; [|done].
  apply Forall_insert; [done|]. apply Hpush. eapply Forall_lookup_1; eauto.
Qed.

Lemma exactTotal_cons (x : float) (l : list float) :
  exactTotal (x :: l) = (default 0 (value x) + exactTotal l)%Qc.
Proof. reflexivity. Qed.

Lemma exactTotal_snoc (l : list float) (x : float) :
  exactTotal (l ++ [x]) = (exactTotal l + default 0 (value x))%Qc.
Proof.
  unfold exactTotal. rewrite sumOf_app.
  change (sumOf (λ y, default 0%Qc (value y)) [x])
    with (default 0 (value x) + 0)%Qc.
  ring.
Qed.

(** In exact arithmetic, what the item lists of the shares stand for grows
    by the prices of the items that name a participant. *)
Lemma b64_processItems_items its acc :
  sumOf (λ share, exactTotal (price <$> items share))
        (processItems assignments its acc).2
  = (sumOf (λ share, exactTotal (price <$> items share)) acc.2
     + exactTotal
         (price <$> filter (λ item, namesParticipant assignments
                                      (participantId <$> acc.2) item = true) its))%Qc.
Proof.
  revert acc. induction its as [|item its IH]; intros acc.
  - simpl. ring.
  - rewrite b64_processItems_cons, IH, b64_processItem_ids, filter_cons.
    destruct (b64_processItem_cases acc item)
      as [(i & share & Hn & Hi & _ & ->)|[Hn ->]]; simpl.
    + rewrite decide_True by done.
      rewrite (sumOf_insert _ _ _ _ _ Hi). cbv beta.
      change (items (pushItem share item)) with (items share ++ [item]).
      rewrite fmap_app. change (price <$> [item]) with [price item].
      rewrite exactTotal_snoc, fmap_cons, exactTotal_cons. ring.
    + rewrite decide_False by (rewrite Hn; done). done.
Qed.
End Binary64Loop.

(** *** The engine as a whole *)

Section Binary64Shares.
Import Binary64.
Local Open Scope float_scope.

Lemma b64_collectItems_total bill : (collectItems bill).1 = totalBillSubtotal bill.
Proof. unfold collectItems. by rewrite b64_processItems_total. Qed.


Lemma b64_calculateShares_unfold bill :
  participants bill ≠ [] →
  calculateShares (Some bill)
  = setTotalOwed
      <$> distributeFees bill (totalBillSubtotal bill) (collectItems bill).2.
Proof.
  intros Hps. simpl.
  rewrite bool_decide_eq_false_2 by (by destruct (participants bill)).
  rewrite <-b64_collectItems_total. by destruct (collectItems bill).
Qed.

Lemma b64_calculateShares_nonempty bill share :
  share ∈ calculateShares (Some bill) → participants bill ≠ [].
Proof.
  intros Hin Hps. simpl in Hin. rewrite Hps in Hin. by apply elem_of_nil in Hin.
Qed.

(** What the loop leaves in every share: no fee yet, and the prices of its
    own items, added from the left, as the subtotal. *)
Lemma b64_collectItems_shares bill :
  Forall (λ share,
            taxShare share = 0 ∧ serviceFeeShare share = 0
            ∧ subtotal share = sum price (items share))
         (collectItems bill).2.
Proof.
  apply b64_processItems_Forall.
  - intros share item (? & ? & Hsub). simpl. split_and!; [done..|].
    unfold sum. by rewrite foldl_snoc, Hsub.
  - simpl. apply Forall_fmap, Forall_true. by intros p.
Qed.

(** Neither the fee distribution nor the last pass touches [subtotal],
    [items] or the identity of a share. *)
Lemma b64_calculateShares_field {B} (f : ParticipantShare → B) bill :
  (∀ t fe share, f (setFees t fe share) = f share) →
  (∀ share, f (setTotalOwed share) = f share) →
  participants bill ≠ [] →
  f <$> calculateShares (Some bill) = f <$> (collectItems bill).2.
Proof.
  intros Hfees Htot Hps. rewrite b64_calculateShares_unfold by done.
  rewrite <-list_fmap_compose. unfold distributeFees.
  repeat case_match; try rewrite <-list_fmap_compose;
    apply list_fmap_ext; intros ? share _; simpl; unfold splitEqually, splitProportionally;
    by rewrite ?Htot, ?Hfees.
Qed.

(** The three outcomes of the [if] after the loop. *)
Lemma b64_distributeFees_proportional bill total shares :
  (0 <? total) = true →
  distributeFees bill total shares
  = splitProportionally (taxAmount bill) (serviceFeeAmount bill) total <$> shares.
Proof.
  intros Hpos. unfold distributeFees.
  by rewrite (positive_not_zero _ Hpos), Hpos.
Qed.


Lemma b64_distributeFees_none bill total shares :
  (total <? 0) = true → distributeFees bill total shares = shares.
Proof.
  intros Hneg. unfold distributeFees.
  by rewrite (negative_not_zero _ Hneg), (negative_not_positive _ Hneg).
Qed.

(** *** The claims that depend on a guard of the engine *)

(** C1.  On the bill with items 20000 for A and 30000 for B, tax 5000 and no
    service fee, [calculateShares] returns A with taxShare 2000 and totalOwed
    22000, and B with taxShare 3000 and totalOwed 33000, every number a
    binary64 value computed with the rounded operations of the code.  In
    general, when the [totalBillSubtotal] the loop has computed is greater
    than 0, every share has
    taxShare = taxAmount * (subtotal / totalBillSubtotal),
    serviceFeeShare = serviceFeeAmount * (subtotal / totalBillSubtotal) and
    totalOwed = subtotal + taxShare + serviceFeeShare, each operation the
    rounded one of the code. *)
Theorem calculateShares_normal_case :
  calculateShares (Some normalBill)
  = [ mkShare "A" [mkItem "i1" 20000] 20000 2000 0 22000;
      mkShare "B" [mkItem "i2" 30000] 30000 3000 0 33000 ]
  ∧ ∀ bill share,
      (0 <? totalBillSubtotal bill) = true →
      share ∈ calculateShares (Some bill) →
      taxShare share = taxAmount bill * (subtotal share / totalBillSubtotal bill)
      ∧ serviceFeeShare share
        = serviceFeeAmount bill * (subtotal share / totalBillSubtotal bill)
      ∧ totalOwed share = subtotal share + taxShare share + serviceFeeShare share.
Proof.
  split; [vm_compute; reflexivity|].
  intros bill share Hpos Hin.
  pose proof (b64_calculateShares_nonempty bill share Hin) as Hps.
  rewrite b64_calculateShares_unfold, b64_distributeFees_proportional in Hin by done.
  apply list_elem_of_fmap in Hin as (share1 & -> & Hin).
  apply list_elem_of_fmap in Hin as (share0 & -> & _). done.
Qed.

Lemma calculateShares_normal_case_witness :
  taxShare (mkShare "A" [mkItem "i1" 20000] 20000 2000 0 22000)
  = taxAmount normalBill * (20000 / totalBillSubtotal normalBill).
Proof.
  refine (proj1 (proj2 calculateShares_normal_case normalBill
                   (mkShare "A" [mkItem "i1" 20000] 20000 2000 0 22000) _ _)).
  - vm_compute. reflexivity.
  - rewrite (proj1 calculateShares_normal_case). by left.
Defined.



(** C9.  For every bill whose [totalBillSubtotal], as the loop has computed
    it, is less than 0, no fee is distributed: every share has taxShare = 0
    and serviceFeeShare = 0 whatever taxAmount and serviceFeeAmount are, and
    its totalOwed, subtotal + 0 + 0, is its subtotal (up to the sign of a
    zero). *)
Theorem calculateShares_negative_subtotal bill share :
  (totalBillSubtotal bill <? 0) = true →
  share ∈ calculateShares (Some bill) →
  taxShare share = 0 ∧ serviceFeeShare share = 0
  ∧ totalOwed share = subtotal share + 0 + 0
  ∧ sameValueZero (totalOwed share) (subtotal share).
Proof.
  intros Hneg Hin.
  pose proof (b64_calculateShares_nonempty bill share Hin) as Hps.
  rewrite b64_calculateShares_unfold, b64_distributeFees_none in Hin by done.
  apply list_elem_of_fmap in Hin as (share0 & -> & Hin).
  pose proof (b64_collectItems_shares bill) as Hshares.
  rewrite Forall_forall in Hshares.
  destruct (Hshares share0 Hin) as (Ht & Hf & _).
  simpl. rewrite Ht, Hf. split_and!; [done..|]. apply add_zero_twice.
Qed.

Lemma calculateShares_negative_subtotal_witness :
  taxShare (mkShare "B" [mkItem "i2" (-10000)] (-10000) 0 0 (-10000)) = 0
  ∧ serviceFeeShare (mkShare "B" [mkItem "i2" (-10000)] (-10000) 0 0 (-10000)) = 0
  ∧ totalOwed (mkShare "B" [mkItem "i2" (-10000)] (-10000) 0 0 (-10000))
    = subtotal (mkShare "B" [mkItem "i2" (-10000)] (-10000) 0 0 (-10000)) + 0 + 0
  ∧ sameValueZero
      (totalOwed (mkShare "B" [mkItem "i2" (-10000)] (-10000) 0 0 (-10000)))
      (subtotal (mkShare "B" [mkItem "i2" (-10000)] (-10000) 0 0 (-10000))).
Proof.
  apply (calculateShares_negative_subtotal refundBill).
  - vm_compute. reflexivity.
  - vm_compute. right. left.
Defined.
End Binary64Shares.

(** *** Sums that do not round *)

Section Binary64Sums.
Import Binary64.
Local Open Scope float_scope.

Lemma exactAdd_value (x y : float) :
  exactAdd x y = true →
  ∃ a b, value x = Some a ∧ value y = Some b ∧ value (x + y) = Some (a + b)%Qc.
Proof.
  unfold exactAdd.
  destruct (value x) as [a|], (value y) as [b|], (value (x + y)) as [c|];
    try done.
  intros ->%bool_decide_eq_true. by exists a, b.
Qed.

(** A sum in which no addition rounds stands for the exact sum of what its
    terms stand for. *)
Lemma addsExactly_value (l : list float) (acc : float) (a : Qc) :
  value acc = Some a →
  addsExactly acc l = true →
  value (foldl PrimFloat.add acc l) = Some (a + exactTotal l)%Qc.
Proof.
  revert acc a. induction l as [|x l IH]; intros acc a Hacc Hl.
  - simpl. rewrite Hacc. f_equal. change (exactTotal []) with 0%Qc. ring.
  - simpl in Hl. apply andb_true_iff in Hl as [Hx Hl].
    apply exactAdd_value in Hx as (a' & b & Ha' & Hb & Hab).
    rewrite Hacc in Ha'. injection Ha' as <-.
    change (foldl PrimFloat.add acc (x :: l))
      with (foldl PrimFloat.add (acc + x) l).
    rewrite (IH _ _ Hab Hl), exactTotal_cons, Hb. f_equal.
    change (default 0%Qc (Some b)) with b. ring.
Qed.

Lemma exactSum_value {A} (f : A → float) (l : list A) :
  exactSum (f <$> l) = true → value (sum f l) = Some (exactTotal (f <$> l)).
Proof.
  intros Hl. unfold sum. rewrite <-(foldl_fmap PrimFloat.add).
  rewrite (addsExactly_value _ 0 0%Qc); [f_equal; ring|reflexivity|done].
Qed.

(** Every share the engine returns has, as its subtotal, the prices of its
    own items added from the left. *)
Lemma b64_calculateShares_own_items bill share :
  share ∈ calculateShares (Some bill) → subtotal share = sum price (items share).
Proof.
  intros Hin.
  pose proof (b64_calculateShares_nonempty bill share Hin) as Hps.
  assert ((λ s, (subtotal s, items s)) share
          ∈ (λ s, (subtotal s, items s)) <$> calculateShares (Some bill)) as Hpair.
  { apply list_elem_of_fmap. eauto. }
  rewrite b64_calculateShares_field in Hpair by done.
  apply list_elem_of_fmap in Hpair as (share0 & [= Hsub Hits] & Hin0).
  pose proof (b64_collectItems_shares bill) as Hshares.
  rewrite Forall_forall in Hshares.
  destruct (Hshares share0 Hin0) as (_ & _ & Hown).
  by rewrite Hsub, Hits.
Qed.

Lemma b64_collectItems_items bill :
  sumOf (λ share, exactTotal (price <$> items share)) (collectItems bill).2
  = exactTotal (price <$> assignedItems bill).
Proof.
  unfold collectItems. rewrite b64_processItems_items. simpl.
  rewrite <-list_fmap_compose.
  assert (sumOf (λ share, exactTotal (price <$> items share))
                (initialShare <$> participants bill) = 0%Qc) as ->.
  { induction (participants bill) as [|p ps IH]; [done|].
    rewrite fmap_cons. simpl. rewrite IH. change (exactTotal []) with 0%Qc. ring. }
  unfold assignedItems, isAssigned, participantIds.
  by rewrite Qcplus_0_l.
Qed.

(** C3 fails as stated.  On [regroupedBill] (0.1 for A, 0.2 and 0.3 for B)
    the subtotals 0.1 and 0.5 sum to 0.6, while the prices of the same
    items, summed in the order of the bill, give 0.6000000000000001.  On
    [largeBill] (2^53 and 1, both for A) the only subtotal is 2^53 while the
    prices sum to 2^53 + 1. *)
Lemma subtotals_counterexample :
  (sum subtotal (calculateShares (Some regroupedBill))
   =? sum price (assignedItems regroupedBill)) = false
  ∧ value (sum subtotal (calculateShares (Some largeBill)))
    = Some (Qc_of_Z (2 ^ 53))
  ∧ exactTotal (price <$> assignedItems largeBill) = Qc_of_Z (2 ^ 53 + 1)
  ∧ ¬ (∀ bill,
         sum subtotal (calculateShares (Some bill))
         = sum price (assignedItems bill)).
Proof.
  split_and!.
  - vm_compute. reflexivity.
  - apply (bool_decide_unpack _). vm_compute. exact I.
  - apply (bool_decide_unpack _). vm_compute. exact I.
  - intros Hclaim.
    pose proof (f_equal (λ x, x =? sum price (assignedItems regroupedBill))
                  (Hclaim regroupedBill)) as Heq.
    vm_compute in Heq. discriminate.
Qed.

(** C3, amended.  Every share's subtotal is the sum of the prices of its own
    items, added in the order of the bill with the rounded addition of the
    code.  When none of these additions rounds, and none of the additions
    that sum the subtotals over the shares, that sum stands for the exact sum
    of the prices of the assigned items (the items whose assignment names a
    participant of the bill); with at least one participant and every item
    assigned, for the exact sum of the prices of all items. *)
Theorem calculateShares_subtotals bill :
  (∀ share, share ∈ calculateShares (Some bill) →
            subtotal share = sum price (items share))
  ∧ ((∀ share, share ∈ calculateShares (Some bill) →
               exactSum (price <$> items share) = true) →
     exactSum (subtotal <$> calculateShares (Some bill)) = true →
     value (sum subtotal (calculateShares (Some bill)))
     = Some (exactTotal (price <$> assignedItems bill))
     ∧ (participants bill ≠ [] →
        (∀ item, item ∈ extractedItems bill → isAssigned bill item = true) →
        value (sum subtotal (calculateShares (Some bill)))
        = Some (exactTotal (price <$> extractedItems bill)))).
Proof.
  split; [apply b64_calculateShares_own_items|].
  intros Hown Hsum.
  assert (value (sum subtotal (calculateShares (Some bill)))
          = Some (exactTotal (price <$> assignedItems bill))) as Hvalue.
  { rewrite (exactSum_value _ _ Hsum). f_equal.
    destruct (decide (participants bill = [])) as [Hps|Hps].
    - simpl. rewrite Hps. simpl.
      unfold assignedItems. rewrite filter_none; [done|].
      intros item _. unfold isAssigned, namesParticipant, participantIds.
      rewrite Hps. destruct (assignedParticipant _ _); [|done].
      rewrite bool_decide_eq_false_2; [done|]. apply not_elem_of_nil.
    - transitivity (sumOf (λ its, exactTotal (price <$> its))
                          (items <$> calculateShares (Some bill))).
      + rewrite sumOf_fmap. unfold exactTotal at 1. rewrite sumOf_fmap.
        apply sumOf_ext_fmap, Forall_fmap_ext_1, Forall_forall.
        intros share Hin. simpl.
        rewrite (b64_calculateShares_own_items bill share Hin).
        by rewrite (exactSum_value _ _ (Hown share Hin)).
      + rewrite b64_calculateShares_field, sumOf_fmap by done.
        apply b64_collectItems_items. }
  split; [done|].
  intros _ Hall. rewrite Hvalue. unfold assignedItems. by rewrite filter_all.
Qed.

Lemma calculateShares_subtotals_witness :
  value (sum subtotal (calculateShares (Some normalBill)))
  = Some (exactTotal (price <$> extractedItems normalBill)).
Proof.
  apply (proj2 (calculateShares_subtotals normalBill)).
  - intros share Hin. revert share Hin. apply Forall_forall. by_evaluation.
  - vm_compute. reflexivity.
  - done.
  - intros item Hin. revert item Hin. apply Forall_forall. by_evaluation.
Defined.
End Binary64Sums.

(** *** The guards and the exact sum *)

Section Binary64Guards.
Import Binary64.
Local Open Scope float_scope.

Lemma finite_value_pos (m : positive) (e : Z) :
  (0 < Q2Qc (inject_Z (Z.pos m) * Qpower 2 e))%Qc.
Proof.
  unfold Qclt. cbn [this Q2Qc]. rewrite !Qred_correct.
  apply Qmult_lt_0_compat; [done|]. by apply Qpower_0_lt.
Qed.

Lemma finite_value_neg (m : positive) (e : Z) :
  (Q2Qc (inject_Z (Z.neg m) * Qpower 2 e) < 0)%Qc.
Proof.
  unfold Qclt. cbn [this Q2Qc]. rewrite !Qred_correct.
  change (inject_Z (Z.neg m)) with (- inject_Z (Z.pos m))%Q.
  assert (- inject_Z (Z.pos m) * Qpower 2 e
          == - (inject_Z (Z.pos m) * Qpower 2 e))%Q as -> by ring.
  apply (Qopp_lt_compat 0). apply Qmult_lt_0_compat; [done|]. by apply Qpower_0_lt.
Qed.

(** The comparisons of a finite number with [0] are those of the rational
    it stands for. *)
Lemma value_sign (x : float) (q : Qc) :
  value x = Some q →
  ((0 <? x) = true ↔ (0 < q)%Qc)
  ∧ ((x =? 0) = true ↔ q = 0%Qc)
  ∧ ((x <? 0) = true ↔ (q < 0)%Qc).
Proof.
  unfold value. rewrite !FloatAxioms.ltb_spec, FloatAxioms.eqb_spec.
  change (Prim2SF 0) with (S754_zero false).
  destruct (Prim2SF x) as [s|s| |[] m e]; try done; intros [= <-]; simpl.
  - split_and!; split; try done; intros H; by apply Qclt_not_eq in H.
  - pose proof (finite_value_neg m e) as Hneg. split_and!; split; try done.
    + intros Hpos. exfalso. exact (Qclt_not_eq _ _ (Qclt_trans _ _ _ Hpos Hneg) eq_refl).
    + intros Hzero. rewrite Hzero in Hneg. by apply Qclt_not_eq in Hneg.
  - pose proof (finite_value_pos m e) as Hpos. split_and!; split; try done.
    + intros Hzero. rewrite Hzero in Hpos. by apply Qclt_not_eq in Hpos.
    + intros Hneg. exfalso. exact (Qclt_not_eq _ _ (Qclt_trans _ _ _ Hpos Hneg) eq_refl).
Qed.

(** X23.  When no addition of the running total rounds, [totalBillSubtotal]
    stands for the exact sum of the item prices, and the guards of the
    engine ([> 0], [=== 0], and neither) compare that exact sum with 0. *)
Theorem totalBillSubtotal_guards bill :
  exactSum (price <$> extractedItems bill) = true →
  value (totalBillSubtotal bill) = Some (exactTotal (price <$> extractedItems bill))
  ∧ ((0 <? totalBillSubtotal bill) = true
     ↔ (0 < exactTotal (price <$> extractedItems bill))%Qc)
  ∧ ((totalBillSubtotal bill =? 0) = true
     ↔ exactTotal (price <$> extractedItems bill) = 0%Qc)
  ∧ ((totalBillSubtotal bill <? 0) = true
     ↔ (exactTotal (price <$> extractedItems bill) < 0)%Qc).
Proof.
  intros Hexact.
  pose proof (exactSum_value price (extractedItems bill) Hexact) as Hvalue.
  split; [done|]. by apply value_sign.
Qed.

Lemma totalBillSubtotal_guards_witness :
  (0 <? totalBillSubtotal normalBill) = true
  ↔ (0 < exactTotal (price <$> extractedItems normalBill))%Qc.
Proof.
  apply (totalBillSubtotal_guards normalBill). vm_compute. reflexivity.
Defined.

(** Rounding alone.  On [decimalBill] every item is assigned and no amount
    is negative; the tax shares do not sum to the tax, but to the number
    next to it: the two differ by less than 1e-12. *)
Example ordinary_prices_within_tolerance :
  (sum taxShare (calculateShares (Some decimalBill)) =? taxAmount decimalBill)
  = false
  ∧ (abs (sum taxShare (calculateShares (Some decimalBill)) - taxAmount decimalBill)
     <? 1 / 1000000000000) = true
  ∧ sum serviceFeeShare (calculateShares (Some decimalBill))
    = serviceFeeAmount decimalBill.
Proof. split_and!; vm_compute; reflexivity. Qed.

(** Prices that cancel.  On [cancellingBill] (0.1 and 0.2 for A, -0.3 for B,
    tax 5000) every item is assigned and the running total, 5.55e-17, is
    greater than 0; the tax shares, 2.7e19 and -2.7e19, sum to 4096. *)
Example cancelling_prices_lose_the_tax :
  (0 <? totalBillSubtotal cancellingBill) = true
  ∧ Forall (λ item, isAssigned cancellingBill item = true)
           (extractedItems cancellingBill)
  ∧ sum taxShare (calculateShares (Some cancellingBill)) = 4096.
Proof.
  split_and!; [vm_compute; reflexivity|by_evaluation|vm_compute; reflexivity].
Qed.

(** Prices that sum to exactly 0 while the running total rounds to
    2.2e-16: the bill is not taken for a degenerate one, and the
    proportional split charges nobody. *)
Example zero_sum_not_degenerate :
  exactTotal (price <$> extractedItems zeroSumBill) = 0%Qc
  ∧ exactSum (price <$> extractedItems zeroSumBill) = false
  ∧ (totalBillSubtotal zeroSumBill =? 0) = false
  ∧ taxShare <$> calculateShares (Some zeroSumBill) = [0; 0; 0].
Proof.
  split_and!; [by_evaluation|vm_compute; reflexivity..].
Qed.
End Binary64Guards.

(** ** The claims about the lifecycle *)

(** *** Removing a participant *)

Lemma foldl_insert_lookup (l : list (string * option string))
    (acc : gmap string (option string)) (k : string) :
  NoDup l.*1 →
  foldl (λ acc entry, <[entry.1 := entry.2]> acc) acc l !! k
  = match (list_to_map l : gmap string (option string)) !! k with
    | Some v => Some v
    | None => acc !! k
    end.
Proof.
  revert acc. induction l as [|[k' v'] l IH]; intros acc Hnd; [done|].
  apply NoDup_cons in Hnd as [Hk' Hnd]. simpl. rewrite IH by done.
  destruct (decide (k' = k)) as [->|Hne].
  - rewrite lookup_insert_eq, (not_elem_of_list_to_map_1 l k) by done.
    by rewrite lookup_insert_eq.
  - rewrite !lookup_insert_ne by done. done.
Qed.

(** The rebuilt dictionary is the old one restricted to the entries that
    do not point to the participant. *)
Lemma assignmentsWithout_filter pid (assignments : gmap string (option string)) :
  assignmentsWithout pid assignments
  = filter (λ entry, entry.2 ≠ Some pid) assignments.
Proof.
  apply map_eq. intros k. unfold assignmentsWithout.
  rewrite foldl_insert_lookup.
  - rewrite <-map_filter_alt, lookup_empty. by destruct (filter _ _ !! k).
  - eapply sublist_NoDup; [apply (NoDup_fst_map_to_list assignments)|].
    apply fmap_sublist, sublist_filter.
Qed.

Lemma handleRemoveParticipant_purges st bill pid :
  currentBill st = Some bill →
  ∃ bill',
    handleRemoveParticipant pid st = setCurrentBill (Some bill') st
    ∧ (∀ itemId, itemAssignments bill' !! itemId ≠ Some (Some pid))
    ∧ (∀ itemId v,
         v ≠ Some pid →
         itemAssignments bill' !! itemId = Some v
         ↔ itemAssignments bill !! itemId = Some v)
    ∧ (∀ q, q ≠ pid → q ∈ participantIds bill → q ∈ participantIds bill').
Proof.
  intros Hcur. unfold handleRemoveParticipant. rewrite Hcur.
  eexists. split; [reflexivity|]. simpl. rewrite assignmentsWithout_filter.
  split_and!.
  - intros itemId Hl. apply map_lookup_filter_Some in Hl as [_ Hne]. by apply Hne.
  - intros itemId v Hv. rewrite map_lookup_filter_Some. simpl. tauto.
  - intros q Hq. unfold participantIds. simpl. rewrite !list_elem_of_fmap.
    intros (p & -> & Hin). exists p. split; [done|]. by apply list_elem_of_filter.
Qed.

(** C6.  Removing participant p from the bill in progress yields a bill with
    the same item list in which no assignment maps an item to p: the items
    that pointed to p have no entry any more and read as unassigned, every
    other entry is kept as it was and none is added, and p is no longer a
    participant while the others remain. *)
Theorem handleRemoveParticipant_clears_assignments st bill pid :
  currentBill st = Some bill →
  ∃ bill',
    handleRemoveParticipant pid st = setCurrentBill (Some bill') st
    ∧ extractedItems bill' = extractedItems bill
    ∧ (∀ itemId, itemAssignments bill' !! itemId ≠ Some (Some pid))
    ∧ (∀ itemId,
         itemAssignments bill !! itemId = Some (Some pid) →
         itemAssignments bill' !! itemId = None
         ∧ assignedParticipant (itemAssignments bill') itemId = None)
    ∧ (∀ itemId v,
         v ≠ Some pid →
         itemAssignments bill' !! itemId = Some v
         ↔ itemAssignments bill !! itemId = Some v)
    ∧ (pid ∉ participantIds bill')
    ∧ (∀ q, q ≠ pid → q ∈ participantIds bill' ↔ q ∈ participantIds bill).
Proof.
  intros Hcur. unfold handleRemoveParticipant. rewrite Hcur.
  eexists. split; [reflexivity|]. simpl. rewrite assignmentsWithout_filter.
  split_and!.
  - done.
  - intros itemId Hl. apply map_lookup_filter_Some in Hl as [_ Hne]. by apply Hne.
  - intros itemId Hl.
    assert (filter (λ entry : string * option string, entry.2 ≠ Some pid)
                   (itemAssignments bill) !! itemId = None) as Hnone.
    { apply map_lookup_filter_None. right. intros v Hv Hne.
      rewrite Hl in Hv. injection Hv as <-. by apply Hne. }
    split; [done|]. unfold assignedParticipant. by rewrite Hnone.
  - intros itemId v Hv. rewrite map_lookup_filter_Some. simpl. tauto.
  - unfold participantIds. simpl.
    intros (p & Hp & Hin)%list_elem_of_fmap.
    apply list_elem_of_filter in Hin as [Hne _]. by apply Hne.
  - intros q Hq. unfold participantIds. simpl.
    rewrite !list_elem_of_fmap. split.
    + intros (p & -> & Hin). apply list_elem_of_filter in Hin as [_ Hin]. eauto.
    + intros (p & -> & Hin). exists p. split; [done|].
      by apply list_elem_of_filter.
Qed.

Lemma handleRemoveParticipant_clears_assignments_witness :
  ∃ bill',
    handleRemoveParticipant "B" (editing normalBill)
    = setCurrentBill (Some bill') (editing normalBill)
    ∧ extractedItems bill' = extractedItems normalBill
    ∧ itemAssignments bill' !! "i2" = None
    ∧ itemAssignments bill' !! "i1" = Some (Some "A").
Proof.
  destruct (handleRemoveParticipant_clears_assignments
              (editing normalBill) normalBill "B" eq_refl)
    as (bill' & Heq & Hitems & _ & Hgone & Hkept & _).
  exists bill'. split_and!; [done|done| |].
  - apply Hgone. by vm_compute.
  - apply Hkept; [done|]. by vm_compute.
Defined.

(** *** The gates of the summary *)

Lemma string_length_app (s1 s2 : string) :
  String.length (s1 +:+ s2) = (String.length s1 + String.length s2)%nat.
Proof. induction s1 as [|a s1 IH]; simpl; [done|]. by rewrite IH. Qed.

Lemma string_app_inj_r (s1 s2 t : string) : s1 +:+ t = s2 +:+ t → s1 = s2.
Proof.
  revert s2. induction s1 as [|a s1 IH]; intros [|b s2] Heq.
  - done.
  - apply (f_equal String.length) in Heq.
    rewrite !string_length_app in Heq. simpl in Heq. exfalso. lia.
  - apply (f_equal String.length) in Heq.
    rewrite !string_length_app in Heq. simpl in Heq. exfalso. lia.
  - cbn in Heq. injection Heq as -> Heq. f_equal. by apply IH.
Qed.

Lemma gateMessage_inj : Inj (=) (=) gateMessage.
Proof.
  intros [| | |n] [| | |m] Heq; try done;
    try (by vm_compute in Heq; discriminate Heq);
    try (unfold gateMessage, unassignedMessage in Heq; simpl in Heq;
         discriminate Heq).
  unfold gateMessage, unassignedMessage in Heq.
  apply String.app_inj, string_app_inj_r in Heq.
  f_equal. by apply (inj pretty).
Qed.

Lemma gateMessage_nonempty failure : gateMessage failure ≠ EmptyString.
Proof. by destruct failure. Qed.

Lemma unassignedItems_nil bill :
  unassignedItems bill = [] ↔
  ∀ item, item ∈ extractedItems bill → hasAssignment bill item.
Proof.
  unfold unassignedItems, hasAssignment. split.
  - intros Hnil item Hin. apply not_eq_None_Some. intros Hnone.
    assert (item ∈ filter
              (λ item, assignedParticipant (itemAssignments bill) (item_id item) = None)
              (extractedItems bill)) as Hmem by by apply list_elem_of_filter.
    rewrite Hnil in Hmem. by apply elem_of_nil in Hmem.
  - intros Hall. apply filter_none. intros item Hin Hnone.
    apply (Hall item) in Hin as [pid Hpid]. congruence.
Qed.

Lemma length_zero_iff_nil' {A} (l : list A) : length l = 0%nat ↔ l = [].
Proof. by destruct l. Qed.

(** The handler, by the first gate that rejects. *)
Lemma handleViewSummary_rejects st failure :
  violates st failure →
  handleViewSummary st = setErrorMessage (gateMessage failure) (clearMessages st).
Proof.
  unfold handleViewSummary. simpl.
  destruct 1 as [Hcur|bill Hcur Hps|bill Hcur Hps Hits|bill Hcur Hps Hits Hun];
    rewrite Hcur; [done|..].
  - by rewrite bool_decide_eq_true_2 by by rewrite Hps.
  - rewrite bool_decide_eq_false_2 by by rewrite length_zero_iff_nil'.
    by rewrite bool_decide_eq_true_2 by by rewrite Hits.
  - rewrite !bool_decide_eq_false_2 by by rewrite length_zero_iff_nil'.
    rewrite !bool_decide_eq_true_2; [done|..].
    + destruct (participants bill); [done|simpl; lia].
    + destruct (unassignedItems bill); [done|simpl; lia].
Qed.

Lemma handleViewSummary_accepts st :
  summaryGates st →
  handleViewSummary st = setAppStep VIEW_SUMMARY (clearMessages st).
Proof.
  intros (bill & Hcur & Hps & Hits & Hall%unassignedItems_nil).
  unfold handleViewSummary. simpl. rewrite Hcur.
  rewrite !bool_decide_eq_false_2 by by rewrite length_zero_iff_nil'.
  by rewrite Hall.
Qed.

Lemma summaryGates_or_violates st :
  summaryGates st ∨ ∃ failure, violates st failure.
Proof.
  destruct (currentBill st) as [bill|] eqn:Hcur.
  2:{ right. exists NoBill. by constructor. }
  destruct (decide (participants bill = [])) as [Hps|Hps].
  { right. exists NoParticipants. by econstructor. }
  destruct (decide (extractedItems bill = [])) as [Hits|Hits].
  { right. exists NoItems. by econstructor. }
  destruct (decide (unassignedItems bill = [])) as [Hun|Hun].
  - left. exists bill. split_and!; try done. by apply unassignedItems_nil.
  - right. eexists. by econstructor.
Qed.

Lemma violates_not_summaryGates st failure :
  violates st failure → ¬ summaryGates st.
Proof.
  intros Hv (bill & Hcur & Hps & Hits & Hall%unassignedItems_nil).
  destruct Hv; congruence.
Qed.

(** C5.  [handleViewSummary] moves to VIEW_SUMMARY if and only if a bill is
    in progress, it has a participant and an item, and every item has an
    assignment.  Otherwise exactly one gate rejects: the handler sets the
    message of that gate and leaves the step and the bill as they were; the
    messages of different gates differ, none is empty, and the message for
    unassigned items carries their count. *)
Theorem handleViewSummary_gates st :
  (summaryGates st ↔
   handleViewSummary st = setAppStep VIEW_SUMMARY (clearMessages st))
  ∧ (appStep st ≠ VIEW_SUMMARY →
     summaryGates st ↔ appStep (handleViewSummary st) = VIEW_SUMMARY)
  ∧ (¬ summaryGates st ↔ ∃ failure, violates st failure)
  ∧ (∀ failure,
       violates st failure →
       handleViewSummary st
       = setErrorMessage (gateMessage failure) (clearMessages st)
       ∧ errorMessage (handleViewSummary st) = gateMessage failure
       ∧ appStep (handleViewSummary st) = appStep st
       ∧ currentBill (handleViewSummary st) = currentBill st)
  ∧ (∀ failure, gateMessage failure ≠ EmptyString)
  ∧ (∀ failure1 failure2,
       gateMessage failure1 = gateMessage failure2 → failure1 = failure2)
  ∧ (∀ count,
       gateMessage (UnassignedItems count)
       = "Please assign all items. " +:+ pretty count
         +:+ " item(s) are unassigned.").
Proof.
  split_and!.
  - split; [apply handleViewSummary_accepts|].
    intros Heq. destruct (summaryGates_or_violates st) as [|[failure Hv]]; [done|].
    rewrite (handleViewSummary_rejects st failure Hv) in Heq.
    apply (f_equal errorMessage) in Heq. simpl in Heq.
    by apply gateMessage_nonempty in Heq.
  - intros Hstep. split.
    + intros Hg. by rewrite handleViewSummary_accepts.
    + intros Heq. destruct (summaryGates_or_violates st) as [|[failure Hv]]; [done|].
      rewrite (handleViewSummary_rejects st failure Hv) in Heq. done.
  - split.
    + intros Hng. by destruct (summaryGates_or_violates st).
    + intros [failure Hv]. by eapply violates_not_summaryGates.
  - intros failure Hv. by rewrite (handleViewSummary_rejects st failure Hv).
  - apply gateMessage_nonempty.
  - apply gateMessage_inj.
  - done.
Qed.

Lemma handleViewSummary_gates_witness :
  errorMessage (handleViewSummary (editing partlyAssignedBill))
  = "Please assign all items. 1 item(s) are unassigned."
  ∧ appStep (handleViewSummary (editing partlyAssignedBill)) = EDIT_BILL_DETAILS
  ∧ appStep (handleViewSummary (editing normalBill)) = VIEW_SUMMARY.
Proof.
  destruct (handleViewSummary_gates (editing partlyAssignedBill))
    as (_ & _ & _ & Hrej & _).
  destruct (Hrej (UnassignedItems 1)) as (_ & Hmsg & Hstep & _).
  { apply (violates_assignments _ partlyAssignedBill); by vm_compute. }
  split_and!; [exact Hmsg|exact Hstep|].
  apply (proj1 (proj2 (handleViewSummary_gates (editing normalBill)))).
  - by vm_compute.
  - exists normalBill. split_and!; [done|done|done|].
    apply Forall_forall. unfold hasAssignment. by_evaluation.
Defined.

(** *** Saving, and the history afterwards *)

Lemma loadBills_save bills storage :
  loadBillsFromStorage (saveBillsToStorage bills storage)
  = if setItemThrows storage then loadBillsFromStorage storage else bills.
Proof. unfold saveBillsToStorage. by destruct (setItemThrows storage). Qed.


Lemma handleSaveBill_unfold st bill :
  currentBill st = Some bill →
  handleSaveBill st
  = setAppStep UPLOAD_RECEIPT
      (setCurrentBill None
         (setSuccessMessage "Bill saved successfully!"
            (setHistoricalBills
               (savedBill bill :: loadBillsFromStorage (localStorage st))
               (setLocalStorage
                  (saveBillsToStorage
                     (savedBill bill :: loadBillsFromStorage (localStorage st))
                     (localStorage st))
                  (clearMessages st))))).
Proof. intros Hcur. unfold handleSaveBill. by rewrite Hcur. Qed.



Section Steps.
Context (trim toLowerCase : string → string).
Context (DEFAULT_SERVICE_FEE_PERCENTAGE : Qc).

Local Abbreviation step := (step trim toLowerCase DEFAULT_SERVICE_FEE_PERCENTAGE).
Local Abbreviation run := (run trim toLowerCase DEFAULT_SERVICE_FEE_PERCENTAGE).









(** The assignments of the bill in progress stay inside its participant
    list: removing a participant purges them, and the selector offers
    participants only. *)
Lemma step_wellAssigned ev st :
  fromSelector st ev → wellAssignedState st → wellAssignedState (step ev st).
Proof.
  intros Hev Hwf.
  assert (∀ b b', itemAssignments b' = itemAssignments b →
                  participants b' = participants b →
                  wellAssigned b → wellAssigned b') as Hsame.
  { intros b b' Ha Hp Hb itemId pid. unfold participantIds. rewrite Ha, Hp.
    apply Hb. }
  unfold wellAssignedState in *. intros bill'.
  destruct (currentBill st) as [b|] eqn:Hcur.
  - specialize (Hwf b eq_refl).
    destruct ev; simpl;
      unfold mountEffect, handleImageUpload, onloadend, analysisResolved,
        updateBillFromAnalysis, analysisRejected, handleAddParticipant,
        handleUpdateItem, handleAddItem, handleRemoveItem, handleAssignItem,
        handleUpdateTax, handleSetDefaultServiceFee, handleUpdateServiceFee,
        handleViewSummary, handleSaveBill, startNewBill, viewBillFromHistory,
        handleDeleteBill, handleClearHistory, handleShareToWhatsApp, showHistory,
        summaryBack, editBack;
      simpl; rewrite ?Hcur; repeat case_match; simpl; rewrite ?Hcur; try done;
      try (intros [= <-]; first [exact Hwf | by eapply Hsame; [| |exact Hwf]]).
    + (* Onloadend *)
      intros [= <-] itemId pid. simpl. by rewrite lookup_empty.
    + (* AddParticipant *)
      intros [= <-] itemId pid Hl. unfold participantIds. simpl.
      rewrite fmap_app, elem_of_app. left. by eapply Hwf.
    + (* RemoveParticipant *)
      destruct (handleRemoveParticipant_purges st b pid Hcur)
        as (bill'' & -> & Hnone & Hkept & Hids).
      simpl. intros [= <-] itemId q Hl.
      assert (q ≠ pid) as Hq by (intros ->; by apply (Hnone itemId)).
      apply Hids; [done|]. eapply Hwf.
      apply (Hkept itemId (Some q)); [congruence|done].
    + (* RemoveItem *)
      intros [= <-] itemId' pid. simpl.
      intros Hl%lookup_delete_Some. eapply Hwf. apply Hl.
    + (* AssignItem *)
      intros [= <-] itemId' q. unfold assignItem. simpl.
      rewrite lookup_insert. case_decide; [|by apply Hwf].
      intros [= ->]. destruct Hev as (bill & Hcur' & Hpid). by simplify_eq.
  - destruct ev; simpl;
      unfold mountEffect, handleImageUpload, onloadend, analysisResolved,
        updateBillFromAnalysis, analysisRejected, handleAddParticipant,
        handleRemoveParticipant,
        handleUpdateItem, handleAddItem, handleRemoveItem, handleAssignItem,
        handleUpdateTax, handleSetDefaultServiceFee, handleUpdateServiceFee,
        handleViewSummary, handleSaveBill, startNewBill, viewBillFromHistory,
        handleDeleteBill, handleClearHistory, handleShareToWhatsApp, showHistory,
        summaryBack, editBack;
      simpl; rewrite ?Hcur; repeat case_match; simpl; rewrite ?Hcur; try done.
    + (* Onloadend *)
      intros [= <-] itemId pid. simpl. by rewrite lookup_empty.
    + (* AnalysisResolved *)
      intros [= <-] itemId pid. simpl. by rewrite lookup_empty.
Qed.

(** When the gate of the summary lets such a bill through, every item is
    assigned to a participant of the bill, which is what the fee sums of the
    engine need. *)
Lemma summaryGates_isAssigned st bill :
  summaryGates st → currentBill st = Some bill → wellAssigned bill →
  ∀ item, item ∈ extractedItems bill → isAssigned bill item = true.
Proof.
  intros (bill' & Hcur' & _ & _ & Hall) Hcur Hwf item Hin.
  rewrite Hcur in Hcur'. injection Hcur' as <-.
  destruct (Hall item Hin) as [pid Hpid].
  unfold isAssigned, namesParticipant. rewrite Hpid.
  apply bool_decide_eq_true. unfold assignedParticipant in Hpid.
  destruct (itemAssignments bill !! item_id item) as [[pid'|]|] eqn:Hl; try done.
  case_decide; simplify_eq. by eapply Hwf.
Qed.
End Steps.




(** * Further properties of the code *)

(** ** The allocation engine, share by share *)

Lemma addItems_nil share : addItems share [] = share.
Proof.
  destruct share. unfold addItems. simpl. f_equal; [apply app_nil_r|ring].
Qed.

Lemma addItems_pushItem share item its :
  addItems (pushItem share item) its = addItems share (item :: its).
Proof.
  unfold addItems, pushItem. simpl. f_equal; [by rewrite <-app_assoc|ring].
Qed.

(** With pairwise distinct participant ids, the loop gives every share the
    items assigned to its id, in order. *)
Lemma processItems_addItems assignments its acc :
  NoDup (participantId <$> acc.2) →
  (processItems assignments its acc).2
  = (λ share,
       addItems share
         (filter (λ item, assignedParticipant assignments (item_id item)
                          = Some (participantId share)) its)) <$> acc.2.
Proof.
  revert acc. induction its as [|item its IH]; intros acc Hnd.
  - simpl. rewrite <-(list_fmap_id acc.2) at 1.
    apply list_fmap_ext. intros ? share _. by rewrite filter_nil, addItems_nil.
  - change (processItems assignments (item :: its) acc)
      with (processItems assignments its (processItem assignments acc item)).
    rewrite IH by by rewrite processItem_ids.
    destruct (processItem_cases assignments acc item)
      as [(i & share & _ & Hi & Ha & ->)|[Hn ->]]; simpl.
    + apply list_eq. intros j. rewrite !list_lookup_fmap.
      destruct (decide (i = j)) as [<-|Hij].
      * rewrite list_lookup_insert_eq by by eapply lookup_lt_Some.
        rewrite Hi. simpl. f_equal.
        rewrite filter_cons, decide_True by done. apply addItems_pushItem.
      * rewrite list_lookup_insert_ne by done.
        destruct (acc.2 !! j) as [other|] eqn:Hj; [|done]. simpl. f_equal.
        rewrite filter_cons, decide_False; [done|].
        intros Heq. apply Hij. rewrite Ha in Heq. injection Heq as Heq.
        eapply (NoDup_lookup _ i j (participantId share)); [exact Hnd| |];
          rewrite list_lookup_fmap; [by rewrite Hi|rewrite Hj; simpl; by rewrite Heq].
    + apply list_fmap_ext. intros j other Hj. f_equal.
      rewrite filter_cons, decide_False; [done|].
      intros Heq. unfold namesParticipant in Hn. rewrite Heq in Hn.
      apply bool_decide_eq_false in Hn. apply Hn, list_elem_of_fmap.
      exists other. split; [done|]. by eapply list_elem_of_lookup_2.
Qed.

Lemma calculateShares_identities bill :
  Forall2 (λ p share,
             participantId share = participant_id p
             ∧ participantName share = participant_name p)
          (participants bill) (calculateShares (Some bill)).
Proof.
  destruct (decide (participants bill = [])) as [Hps|Hps].
  { rewrite calculateShares_no_participants by done. by rewrite Hps. }
  assert ((λ share, (participantId share, participantName share))
            <$> calculateShares (Some bill)
          = (λ p, (participant_id p, participant_name p)) <$> participants bill)
    as Heq.
  { rewrite calculateShares_field by done. unfold collectItems.
    rewrite processItems_field by done. simpl. by rewrite <-list_fmap_compose. }
  apply list_eq_Forall2 in Heq. rewrite Forall2_fmap in Heq.
  apply Forall2_flip. eapply Forall2_impl; [exact Heq|].
  intros share p [= -> ->]. done.
Qed.

Lemma calculateShares_items_distinct bill share :
  NoDup (participantIds bill) →
  share ∈ calculateShares (Some bill) →
  items share = itemsAssignedTo bill (participantId share)
  ∧ subtotal share = sumOf price (itemsAssignedTo bill (participantId share)).
Proof.
  intros Hnd Hin.
  destruct (calculateShares_origin bill share Hin)
    as (_ & _ & share0 & _ & Hin0 & _ & _ & -> & -> & -> & _).
  unfold collectItems in Hin0. rewrite processItems_addItems in Hin0.
  2:{ simpl. rewrite <-list_fmap_compose. exact Hnd. }
  simpl in Hin0. rewrite <-list_fmap_compose in Hin0.
  apply list_elem_of_fmap in Hin0 as (p & -> & _). simpl.
  split; [done|]. unfold itemsAssignedTo. ring.
Qed.

(** X1.  [calculateShares] returns one share per participant, in the order of
    the participant list and with the participant's id and name.  When the
    participant ids are pairwise distinct, the item list of each share is
    exactly the items of the bill assigned to that id, in the order of the
    bill, and the subtotal is the sum of their prices. *)
Theorem calculateShares_share_per_participant bill :
  Forall2 (λ p share,
             participantId share = participant_id p
             ∧ participantName share = participant_name p)
          (participants bill) (calculateShares (Some bill))
  ∧ (NoDup (participantIds bill) →
     ∀ share,
       share ∈ calculateShares (Some bill) →
       items share = itemsAssignedTo bill (participantId share)
       ∧ subtotal share = sumOf price (itemsAssignedTo bill (participantId share))).
Proof.
  split.
  - apply calculateShares_identities.
  - intros Hnd share Hin. by apply calculateShares_items_distinct.
Qed.

Lemma calculateShares_share_per_participant_witness :
  items (mkShare "A" [mkItem "i1" 20000] 20000 2000 0 22000)
  = itemsAssignedTo danglingBill "A"
  ∧ subtotal (mkShare "A" [mkItem "i1" 20000] 20000 2000 0 22000)
    = sumOf price (itemsAssignedTo danglingBill "A").
Proof.
  apply (proj2 (calculateShares_share_per_participant danglingBill)
           ltac:(by_evaluation)
           (mkShare "A" [mkItem "i1" 20000] 20000 2000 0 22000)).
  by_evaluation.
Defined.

(** ** Sums and bounds of the shares *)




(** A [reduce] that adds a field is the sum of the field. *)
Lemma foldl_sumOf {A} (f : A → Qc) (l : list A) (a : Qc) :
  foldl (λ sum x, sum + f x) a l = a + sumOf f l.
Proof.
  revert a. induction l as [|x l IH]; intros a; simpl; [ring|].
  rewrite IH. ring.
Qed.









(** ** The storage service *)

Lemma filter_filter_same {A} (P : A → Prop) `{∀ x, Decision (P x)} (l : list A) :
  filter P (filter P l) = filter P l.
Proof.
  apply filter_all. intros x Hx. by apply list_elem_of_filter in Hx as [? _].
Qed.

(** X7.  [deleteBillFromStorage] returns the stored bills without those that
    carry the id, the others in their order: no returned bill has the id,
    every stored bill with another id is returned, an id that no stored bill
    carries leaves the list as it is, and deleting the same id again returns
    the same list, whether or not the writes are accepted. *)
Theorem deleteBillFromStorage_removes billId storage :
  (∀ bill, bill ∈ (deleteBillFromStorage billId storage).1 →
           bill_id (session bill) ≠ billId
           ∧ bill ∈ loadBillsFromStorage storage)
  ∧ (∀ bill, bill ∈ loadBillsFromStorage storage →
             bill_id (session bill) ≠ billId →
             bill ∈ (deleteBillFromStorage billId storage).1)
  ∧ ((∀ bill, bill ∈ loadBillsFromStorage storage →
              bill_id (session bill) ≠ billId) →
     (deleteBillFromStorage billId storage).1 = loadBillsFromStorage storage)
  ∧ (deleteBillFromStorage billId (deleteBillFromStorage billId storage).2).1
    = (deleteBillFromStorage billId storage).1.
Proof.
  unfold deleteBillFromStorage. simpl. split_and!.
  - intros bill Hin. by apply list_elem_of_filter in Hin.
  - intros bill Hin Hne. by apply list_elem_of_filter.
  - intros Hnone. by apply filter_all.
  - rewrite loadBills_save. destruct (setItemThrows storage); [done|].
    apply filter_filter_same.
Qed.

Lemma deleteBillFromStorage_removes_witness :
  (deleteBillFromStorage "other" {| entry := Bills [oldEntry]; setItemThrows := false |}).1
  = [oldEntry].
Proof.
  apply (proj1 (proj2 (proj2 (deleteBillFromStorage_removes "other"
                                {| entry := Bills [oldEntry]; setItemThrows := false |})))).
  apply Forall_forall. by_evaluation.
Defined.

(** ** The history screen *)

Lemma handleDeleteBill_history billId st :
  historicalBills (handleDeleteBill billId st)
  = filter (λ b, bill_id (session b) ≠ billId)
           (loadBillsFromStorage (localStorage st)).
Proof. unfold handleDeleteBill. simpl. by repeat case_match. Qed.

(** X8.  After [handleDeleteBill], no bill of the history list carries the
    deleted id.  A bill on the summary screen with that id is closed and
    the step becomes VIEW_HISTORY; when no such bill is on the summary
    screen, what is viewed and the step are kept.  The bill in progress is
    untouched, and opening the deleted id from the history opens nothing:
    it only clears the messages. *)
Theorem handleDeleteBill_forgets billId st :
  (∀ bill, bill ∈ historicalBills (handleDeleteBill billId st) →
           bill_id (session bill) ≠ billId)
  ∧ (∀ viewed, viewingBillDetails st = Some viewed →
               bill_id (session viewed) = billId →
               viewingBillDetails (handleDeleteBill billId st) = None
               ∧ appStep (handleDeleteBill billId st) = VIEW_HISTORY)
  ∧ ((∀ viewed, viewingBillDetails st = Some viewed →
                bill_id (session viewed) ≠ billId) →
     viewingBillDetails (handleDeleteBill billId st) = viewingBillDetails st
     ∧ appStep (handleDeleteBill billId st) = appStep st)
  ∧ currentBill (handleDeleteBill billId st) = currentBill st
  ∧ viewBillFromHistory billId (handleDeleteBill billId st)
    = clearMessages (handleDeleteBill billId st).
Proof.
  split_and!.
  - intros bill. rewrite handleDeleteBill_history.
    intros Hin. by apply list_elem_of_filter in Hin as [? _].
  - intros viewed Hv Hid. unfold handleDeleteBill. simpl. rewrite Hv.
    by rewrite decide_True.
  - intros Hother. unfold handleDeleteBill. simpl.
    destruct (viewingBillDetails st) as [viewed|] eqn:Hv; simpl; [|by rewrite Hv].
    rewrite decide_False by by apply Hother. simpl. by rewrite Hv.
  - unfold handleDeleteBill. simpl. by repeat case_match.
  - unfold viewBillFromHistory. rewrite handleDeleteBill_history.
    destruct (list_find _ _) as [[i found]|] eqn:Hfind; [|done].
    apply list_find_Some in Hfind as (Hfound%list_elem_of_lookup_2 & Hid & _).
    by apply list_elem_of_filter in Hfound as [Hne _].
Qed.

Lemma handleDeleteBill_forgets_witness :
  (viewingBillDetails
     (handleDeleteBill "bill" (setViewingBillDetails (Some oldEntry) summarizing))
   = None
   ∧ appStep (handleDeleteBill "bill" (setViewingBillDetails (Some oldEntry) summarizing))
     = VIEW_HISTORY)
  ∧ (viewingBillDetails
       (handleDeleteBill "other" (setViewingBillDetails (Some oldEntry) summarizing))
     = Some oldEntry
     ∧ appStep (handleDeleteBill "other" (setViewingBillDetails (Some oldEntry) summarizing))
       = VIEW_SUMMARY).
Proof.
  split.
  - apply (proj1 (proj2 (handleDeleteBill_forgets "bill"
                           (setViewingBillDetails (Some oldEntry) summarizing)))
             oldEntry); reflexivity.
  - apply (proj1 (proj2 (proj2 (handleDeleteBill_forgets "other"
                                  (setViewingBillDetails (Some oldEntry) summarizing))))).
    intros viewed [= <-]. by vm_compute.
Defined.

(** X9.  When the browser refuses the write, [handleSaveBill] still reports
    success, shows the bill at the head of the history and discards the bill
    in progress, but the storage is unchanged: the next mount effect reads
    the old list, without the bill. *)
Theorem handleSaveBill_refused_write st bill :
  currentBill st = Some bill →
  setItemThrows (localStorage st) = true →
  successMessage (handleSaveBill st) = "Bill saved successfully!"
  ∧ errorMessage (handleSaveBill st) = EmptyString
  ∧ head (historicalBills (handleSaveBill st)) = Some (savedBill bill)
  ∧ currentBill (handleSaveBill st) = None
  ∧ localStorage (handleSaveBill st) = localStorage st
  ∧ historicalBills (mountEffect (handleSaveBill st))
    = loadBillsFromStorage (localStorage st).
Proof.
  intros Hcur Hw. rewrite (handleSaveBill_unfold st bill Hcur).
  assert (∀ bills, saveBillsToStorage bills (localStorage st) = localStorage st)
    as Hsave.
  { intros bills. unfold saveBillsToStorage. by rewrite Hw. }
  unfold mountEffect. simpl. rewrite !Hsave. split_and!; try done.
  by case_match.
Qed.

Lemma handleSaveBill_refused_write_witness :
  historicalBills
    (mountEffect
       (handleSaveBill
          (setLocalStorage {| entry := Bills [oldEntry]; setItemThrows := true |}
             summarizing)))
  = [oldEntry].
Proof.
  apply (proj2 (proj2 (proj2 (proj2 (proj2
           (handleSaveBill_refused_write
              (setLocalStorage {| entry := Bills [oldEntry]; setItemThrows := true |}
                 summarizing)
              normalBill eq_refl eq_refl)))))).
Defined.

(** X10.  [handleClearHistory] does nothing but clear the messages when the
    user declines.  When the user confirms, the history list is emptied and
    the step is UPLOAD_RECEIPT, while the bill in progress and the bill on
    the summary screen are kept; the next mount effect reads an empty list
    if the browser accepted the write, and the old list if it refused. *)
Theorem handleClearHistory_effect st :
  handleClearHistory false st = clearMessages st
  ∧ historicalBills (handleClearHistory true st) = []
  ∧ appStep (handleClearHistory true st) = UPLOAD_RECEIPT
  ∧ currentBill (handleClearHistory true st) = currentBill st
  ∧ viewingBillDetails (handleClearHistory true st) = viewingBillDetails st
  ∧ historicalBills (mountEffect (handleClearHistory true st))
    = (if setItemThrows (localStorage st)
       then loadBillsFromStorage (localStorage st) else []).
Proof.
  unfold handleClearHistory, clearAllBillsFromStorage, mountEffect. simpl.
  split_and!; try done.
  rewrite loadBills_save. by repeat case_match.
Qed.

(** ** Editing the bill in progress *)

Lemma max0_nonneg (a : Qc) : 0 ≤ max0 a.
Proof. unfold max0. case_bool_decide; [by apply Qclt_le_weak|done]. Qed.


Section Interface.
Context (trim toLowerCase : string → string).
Context (DEFAULT_SERVICE_FEE_PERCENTAGE : Qc).

Local Abbreviation step := (step trim toLowerCase DEFAULT_SERVICE_FEE_PERCENTAGE).
Local Abbreviation run := (run trim toLowerCase DEFAULT_SERVICE_FEE_PERCENTAGE).
Local Abbreviation billEdit :=
  (billEdit trim toLowerCase DEFAULT_SERVICE_FEE_PERCENTAGE).
Local Abbreviation allowed :=
  (allowed trim toLowerCase DEFAULT_SERVICE_FEE_PERCENTAGE).

(** After a step, the bill in progress is the one before or the edit of the
    event. *)
Lemma step_currentBill ev st bill' :
  currentBill (step ev st) = Some bill' →
  currentBill st = Some bill' ∨ billEdit st ev bill'.
Proof.
  destruct (currentBill st) as [bill|] eqn:Hcur.
  - destruct ev; simpl;
      unfold mountEffect, handleImageUpload, onloadend, analysisResolved,
        updateBillFromAnalysis, analysisRejected, handleAddParticipant,
        handleRemoveParticipant,
        handleUpdateItem, handleAddItem, handleRemoveItem, handleAssignItem,
        handleUpdateTax, handleSetDefaultServiceFee, handleUpdateServiceFee,
        handleViewSummary, handleSaveBill, startNewBill, viewBillFromHistory,
        handleDeleteBill, handleClearHistory, handleShareToWhatsApp, showHistory,
        summaryBack, editBack;
      simpl; rewrite ?Hcur; simpl;
      try (intros [= <-]; right;
           first [ by econstructor
                 | pose proof (edit_analysis trim toLowerCase
                                 DEFAULT_SERVICE_FEE_PERCENTAGE st) as Hed;
                   rewrite Hcur in Hed; by apply Hed ]).
    all: try (repeat case_match; simpl; rewrite ?Hcur; try done;
              intros [= <-]; by left).
    + (* AddParticipant *)
      case_decide as Htrim; simpl; rewrite ?Hcur; [by left|].
      case_bool_decide as Hdup; simpl; rewrite ?Hcur; [by left|].
      intros [= <-]. right. constructor; [done..|].
      intros Hin. apply Hdup. apply list_elem_of_fmap in Hin as (p & Hp & Hin).
      eapply list_find_elem_of; [exact Hin|done].
    + (* SetDefaultServiceFee *)
      rewrite foldl_sumOf, Qcplus_0_l. fold (billSubtotal bill).
      case_bool_decide as Hpos; simpl; rewrite ?Hcur; [|by left].
      intros [= <-]. right. by constructor.
  - destruct ev; simpl;
      unfold mountEffect, handleImageUpload, onloadend, analysisResolved,
        updateBillFromAnalysis, analysisRejected, handleAddParticipant,
        handleRemoveParticipant,
        handleUpdateItem, handleAddItem, handleRemoveItem, handleAssignItem,
        handleUpdateTax, handleSetDefaultServiceFee, handleUpdateServiceFee,
        handleViewSummary, handleSaveBill, startNewBill, viewBillFromHistory,
        handleDeleteBill, handleClearHistory, handleShareToWhatsApp, showHistory,
        summaryBack, editBack;
      simpl; rewrite ?Hcur; simpl;
      try (repeat case_match; simpl; rewrite ?Hcur; done).
    + intros [= <-]. right. constructor.
    + intros [= <-]. right.
      pose proof (edit_analysis trim toLowerCase DEFAULT_SERVICE_FEE_PERCENTAGE st)
        as Hed.
      rewrite Hcur in Hed. apply Hed.
Qed.

(** An invariant of the bill in progress holds along a run as soon as the
    empty bills have it and every edit of an allowed event keeps it. *)
Lemma run_billInProgress (P : BillSession → Prop) (Q : AppState → Event → Prop) :
  (∀ st ev bill', Q st ev → billInProgress P st → billEdit st ev bill' → P bill') →
  ∀ evs st, allowed Q st evs → billInProgress P st → billInProgress P (run evs st).
Proof.
  intros Hedit. induction evs as [|ev evs IH]; intros st Hall Hst; [done|].
  destruct Hall as [Hev Hall]. apply IH; [done|].
  intros bill' Hcur. apply step_currentBill in Hcur as [Hcur|Hed].
  - by apply Hst.
  - by eapply Hedit.
Qed.

Lemma allowed_any evs st : allowed (λ _ _, True) st evs.
Proof. revert st. induction evs as [|ev evs IH]; intros st; simpl; auto. Qed.

Lemma billInProgress_initial (P : BillSession → Prop) storage :
  billInProgress P (initialState storage).
Proof. by intros bill. Qed.

(** *** Participant names *)

Lemma billEdit_uniqueNames st ev bill' :
  billInProgress (uniqueNames toLowerCase) st →
  billEdit st ev bill' → uniqueNames toLowerCase bill'.
Proof.
  intros Hst Hed. unfold uniqueNames.
  destruct Hed as [| |newId bill Hcur Htrim Hdup|pid bill Hcur| | | | | | |];
    simpl; try (by apply Hst); try apply NoDup_nil_2.
  - destruct (currentBill st) as [bill|] eqn:Hcur; simpl;
      [by apply Hst|apply NoDup_nil_2].
  - rewrite fmap_app. apply NoDup_app. split_and!; [by apply Hst| |].
    + intros name Hname [->|[]%elem_of_nil]%elem_of_cons. by apply Hdup.
    + apply NoDup_singleton.
  - eapply sublist_NoDup; [by apply Hst|]. apply fmap_sublist, sublist_filter.
Qed.

(** X11.  In every run from the initial state, the names of the participants
    of the bill in progress are pairwise distinct up to case, as compared by
    [toLowerCase]: [handleAddParticipant] refuses a name that is already
    there, and no other handler adds or renames a participant. *)
Theorem participant_names_stay_distinct evs storage :
  billInProgress (uniqueNames toLowerCase) (run evs (initialState storage)).
Proof.
  apply (run_billInProgress (uniqueNames toLowerCase) (λ _ _, True)).
  - intros st ev bill' _ Hst Hed. by eapply billEdit_uniqueNames.
  - apply allowed_any.
  - apply billInProgress_initial.
Qed.

(** *** Identifiers and assignments *)

Lemma imap_fresh_ids (freshId : nat → string) (l : list GeminiParsedResponseItem)
    (j : nat) :
  item_id <$> imap (λ k item,
                      {| item_id := freshId (j + k)%nat;
                         item_name := parsed_name item;
                         quantity := parsed_quantity item;
                         price := parsed_price item |}) l
  = freshId <$> seq j (length l).
Proof.
  revert j. induction l as [|x l IH]; intros j; [done|].
  rewrite imap_cons. simpl. rewrite Nat.add_0_r. f_equal.
  rewrite <-IH. f_equal. apply imap_ext. intros k item _. simpl.
  by rewrite Nat.add_succ_r.
Qed.

Lemma analysedItems_ids (freshId : nat → string) analysis :
  item_id <$> analysedItems freshId analysis
  = freshId <$> seq 0 (length (parsed_items analysis)).
Proof. apply (imap_fresh_ids freshId (parsed_items analysis) 0). Qed.

Lemma elem_of_filter_ids {A} (f : A → string) (l : list A) (avoid k : string) :
  k ∈ f <$> l → k ≠ avoid → k ∈ f <$> filter (λ x, f x ≠ avoid) l.
Proof.
  intros (x & -> & Hx)%list_elem_of_fmap Hne. apply list_elem_of_fmap.
  exists x. split; [done|]. by apply list_elem_of_filter.
Qed.

Lemma NoDup_filter_ids {A} (f : A → string) (l : list A) (avoid : string) :
  NoDup (f <$> l) → NoDup (f <$> filter (λ x, f x ≠ avoid) l).
Proof.
  intros Hnd. eapply sublist_NoDup; [exact Hnd|].
  apply fmap_sublist, sublist_filter.
Qed.

Lemma NoDup_snoc_fresh (l : list string) (x : string) :
  NoDup l → x ∉ l → NoDup (l ++ [x]).
Proof.
  intros Hnd Hx. apply NoDup_app. split_and!; [done| |apply NoDup_singleton].
  intros y Hy [->|[]%elem_of_nil]%elem_of_cons. by apply Hx.
Qed.

Lemma billEdit_wellFormed st ev bill' :
  fromInterface st ev →
  billInProgress wellFormedBill st →
  billEdit st ev bill' → wellFormedBill bill'.
Proof.
  intros Hev Hst Hed. unfold wellFormedBill, wellAssigned, participantIds.
  destruct Hed as [|analysis billId now today freshId
                   |newId bill Hcur Htrim Hdup|pid bill Hcur|updatedItem bill Hcur
                   |newId bill Hcur|itemId bill Hcur|itemId pid bill Hcur
                   |a bill Hcur|a bill Hcur|bill Hcur Hpos];
    simpl in *;
    try (destruct (Hst bill Hcur) as (Hps & Hits & Hkeys & Hwa);
         unfold wellAssigned, participantIds in Hwa, Hps).
  - split_and!; try apply NoDup_nil_2.
    + intros itemId [v Hv]. by rewrite lookup_empty in Hv.
    + intros itemId pid Hl. by rewrite lookup_empty in Hl.
  - destruct Hev as [Hfresh Hempty]. rewrite analysedItems_ids.
    destruct (currentBill st) as [bill|] eqn:Hcur; simpl.
    + destruct (Hst bill Hcur) as (Hps & _). rewrite (Hempty bill eq_refl).
      split_and!; try done.
      all: try (intros itemId [v Hv]; by rewrite lookup_empty in Hv).
      all: try (intros itemId pid Hl; by rewrite lookup_empty in Hl).
    + split_and!; try done; try apply NoDup_nil_2.
      all: try (intros itemId [v Hv]; by rewrite lookup_empty in Hv).
      all: try (intros itemId pid Hl; by rewrite lookup_empty in Hl).
  - split_and!; try done.
    + rewrite fmap_app. apply NoDup_snoc_fresh; [done|]. by apply Hev.
    + intros itemId pid Hl. rewrite fmap_app, elem_of_app. left. by eapply Hwa.
  - rewrite assignmentsWithout_filter. split_and!; try done.
    + by apply NoDup_filter_ids.
    + intros itemId [v Hv]. apply map_lookup_filter_Some in Hv as [Hv _].
      by apply Hkeys.
    + intros itemId q Hl. apply map_lookup_filter_Some in Hl as [Hl Hne].
      apply elem_of_filter_ids; [by eapply Hwa|]. simpl in Hne. congruence.
  - assert (item_id <$> ((λ item, if decide (item_id item = item_id updatedItem)
                                  then updatedItem else item) <$> extractedItems bill)
            = item_id <$> extractedItems bill) as ->; [|done].
    rewrite <-list_fmap_compose. apply list_fmap_ext. intros i item _. simpl.
    by case_decide.
  - split_and!; try done.
    + rewrite fmap_app. apply NoDup_snoc_fresh; [done|]. by apply Hev.
    + intros itemId Hsome. rewrite fmap_app, elem_of_app. left. by apply Hkeys.
  - split_and!; try done.
    + by apply NoDup_filter_ids.
    + intros k [v Hv]. apply lookup_delete_Some in Hv as [Hne Hv].
      apply elem_of_filter_ids; [|done]. by apply Hkeys.
    + intros k q Hl. apply lookup_delete_Some in Hl as [_ Hl]. by eapply Hwa.
  - destruct (Hev bill Hcur) as [Hitem Hpid]. split_and!; try done.
    + intros k. rewrite lookup_insert. case_decide; [by subst|]. apply Hkeys.
    + intros k q. rewrite lookup_insert. case_decide.
      * intros [= ->]. by apply Hpid.
      * by apply Hwa.
  - done.
  - done.
  - done.
Qed.

(** *** Tax and service fee *)

Lemma billEdit_feesNonNegative st ev bill' :
  nonNegativeAnalysis st ev →
  billInProgress feesNonNegative st →
  billEdit st ev bill' → feesNonNegative bill'.
Proof.
  intros Hev Hst Hed. unfold feesNonNegative.
  destruct Hed; simpl in *; try done;
    try (by apply Hst);
    try (split; [by apply Hst|apply max0_nonneg]);
    try (split; [apply max0_nonneg|by apply Hst]).
Qed.

(** X12.  In every run from the initial state whose events are those the
    interface can produce, the bill in progress is well formed: the
    participant ids are pairwise distinct, the item ids are pairwise
    distinct, every key of the assignments is the id of an item of the bill
    and every assigned participant id is the id of a participant of the
    bill. *)
Theorem bill_stays_well_formed evs storage :
  allowed fromInterface (initialState storage) evs →
  billInProgress wellFormedBill (run evs (initialState storage)).
Proof.
  intros Hall. apply (run_billInProgress wellFormedBill fromInterface).
  - intros st ev bill' Hev Hst Hed. by eapply billEdit_wellFormed.
  - exact Hall.
  - apply billInProgress_initial.
Qed.

(** X13.  In every run from the initial state in which the analyzer reports
    no negative tax or service fee, the tax and the service fee of the bill
    in progress are never negative: the two amount handlers and the default
    service fee clamp at zero. *)
Theorem fees_stay_non_negative evs storage :
  allowed nonNegativeAnalysis (initialState storage) evs →
  billInProgress feesNonNegative (run evs (initialState storage)).
Proof.
  intros Hall. apply (run_billInProgress feesNonNegative nonNegativeAnalysis).
  - intros st ev bill' Hev Hst Hed. by eapply billEdit_feesNonNegative.
  - exact Hall.
  - apply billInProgress_initial.
Qed.

End Interface.

Lemma bill_stays_well_formed_witness :
  billInProgress wellFormedBill
    (run (λ s, s) (λ s, s) 0 sampleRun (initialState emptyStorage)).
Proof.
  apply (bill_stays_well_formed (λ s, s) (λ s, s) 0 sampleRun emptyStorage).
  unfold sampleRun. cbn [allowed]. split_and!; try exact I.
  - split; [by_evaluation|]. intros bill Hb. cbn in Hb. by injection Hb as <-.
  - intros bill Hb. cbn in Hb. injection Hb as <-. by_evaluation.
  - intros bill Hb. cbn in Hb. injection Hb as <-. split; [by_evaluation|].
    intros p [= <-]. by_evaluation.
Defined.

Lemma fees_stay_non_negative_witness :
  billInProgress feesNonNegative
    (run (λ s, s) (λ s, s) 0 sampleRun (initialState emptyStorage)).
Proof.
  apply (fees_stay_non_negative (λ s, s) (λ s, s) 0 sampleRun emptyStorage).
  unfold sampleRun. cbn [allowed]. split_and!; try exact I.
  split; by vm_compute.
Defined.


(** ** The item handlers *)

Lemma sumOf_filter_split {A} (f : A → Qc) (P : A → Prop) `{∀ x, Decision (P x)}
    (l : list A) :
  sumOf f l = sumOf f (filter P l) + sumOf f (filter (λ x, ¬ P x) l).
Proof.
  induction l as [|x l IH]; simpl; [ring|].
  rewrite !filter_cons. destruct (decide (P x)) as [HP|HP].
  - rewrite decide_False by tauto. simpl. rewrite IH. ring.
  - rewrite decide_True by done. simpl. rewrite IH. ring.
Qed.

(** X15.  [handleRemoveItem] removes from the bill in progress every item
    with the id and the assignment entry of the id: the other items stay in
    their order, the other entries and the participants are unchanged, and
    the subtotal of the bill drops by the prices of the removed items. *)
Theorem handleRemoveItem_removes st bill itemId :
  currentBill st = Some bill →
  ∃ bill',
    handleRemoveItem itemId st = setCurrentBill (Some bill') st
    ∧ extractedItems bill'
      = filter (λ item, item_id item ≠ itemId) (extractedItems bill)
    ∧ (itemId ∉ item_id <$> extractedItems bill')
    ∧ itemAssignments bill' !! itemId = None
    ∧ (∀ other, other ≠ itemId →
                itemAssignments bill' !! other = itemAssignments bill !! other)
    ∧ participants bill' = participants bill
    ∧ billSubtotal bill
      = billSubtotal bill'
        + sumOf price (filter (λ item, item_id item = itemId) (extractedItems bill)).
Proof.
  intros Hcur. unfold handleRemoveItem. rewrite Hcur.
  eexists. split; [reflexivity|]. simpl. split_and!; try done.
  - intros (item & Hid & Hin)%list_elem_of_fmap.
    apply list_elem_of_filter in Hin as [Hne _]. by apply Hne.
  - apply lookup_delete_eq.
  - intros other Hne. by apply lookup_delete_ne.
  - unfold billSubtotal. simpl.
    rewrite (sumOf_filter_split price (λ item, item_id item ≠ itemId)).
    f_equal. f_equal. apply list_filter_iff. intros item. split.
    + intros Hnn. by destruct (decide (item_id item = itemId)).
    + intros Heq Hne. by apply Hne.
Qed.

Lemma handleRemoveItem_removes_witness :
  ∃ bill',
    handleRemoveItem "i2" (editing normalBill)
    = setCurrentBill (Some bill') (editing normalBill)
    ∧ extractedItems bill' = [mkItem "i1" 20000]
    ∧ itemAssignments bill' !! "i2" = None.
Proof.
  destruct (handleRemoveItem_removes (editing normalBill) normalBill "i2" eq_refl)
    as (bill' & Heq & Hitems & _ & Hgone & _).
  exists bill'. split_and!; [done| |done].
  rewrite Hitems. reflexivity.
Defined.

Lemma withExtractedItems_same bill :
  withExtractedItems (extractedItems bill) bill = bill.
Proof. by destruct bill. Qed.

(** X16.  [handleUpdateItem] puts the updated item in the place of every
    item of the bill in progress that has its id, and changes nothing else:
    the list of item ids (so also the number and the order of the items),
    the participants, the assignments and the fees are the same; when no
    item has the id the bill is the same; when the item ids are pairwise
    distinct, exactly the one position that holds the id is overwritten. *)
Theorem handleUpdateItem_replaces st bill updatedItem :
  currentBill st = Some bill →
  ∃ bill',
    handleUpdateItem updatedItem st = setCurrentBill (Some bill') st
    ∧ item_id <$> extractedItems bill' = item_id <$> extractedItems bill
    ∧ participants bill' = participants bill
    ∧ itemAssignments bill' = itemAssignments bill
    ∧ taxAmount bill' = taxAmount bill
    ∧ serviceFeeAmount bill' = serviceFeeAmount bill
    ∧ (item_id updatedItem ∉ item_id <$> extractedItems bill → bill' = bill)
    ∧ (NoDup (item_id <$> extractedItems bill) →
       ∀ i item,
         extractedItems bill !! i = Some item →
         item_id item = item_id updatedItem →
         extractedItems bill' = <[i := updatedItem]> (extractedItems bill)).
Proof.
  intros Hcur. unfold handleUpdateItem. rewrite Hcur.
  eexists. split; [reflexivity|]. simpl. split_and!; try done.
  - rewrite <-list_fmap_compose. apply list_fmap_ext. intros i item _. simpl.
    by case_decide.
  - intros Hnone.
    assert ((λ item, if decide (item_id item = item_id updatedItem)
                     then updatedItem else item) <$> extractedItems bill
            = id <$> extractedItems bill) as ->.
    { apply list_fmap_ext. intros i item Hi. rewrite decide_False; [done|].
      intros Heq. apply Hnone. rewrite <-Heq. apply list_elem_of_fmap.
      exists item. split; [done|]. by eapply list_elem_of_lookup_2. }
    rewrite list_fmap_id. apply withExtractedItems_same.
  - intros Hnd i item Hi Hid. apply list_eq. intros j.
    rewrite list_lookup_fmap. destruct (decide (i = j)) as [<-|Hij].
    + rewrite list_lookup_insert_eq by by eapply lookup_lt_Some.
      rewrite Hi. simpl. by rewrite decide_True.
    + rewrite list_lookup_insert_ne by done.
      destruct (extractedItems bill !! j) as [other|] eqn:Hj; [|done]. simpl.
      rewrite decide_False; [done|]. intros Heq. apply Hij.
      eapply (NoDup_lookup _ i j (item_id item)); [exact Hnd| |];
        rewrite list_lookup_fmap; [by rewrite Hi|rewrite Hj; simpl; congruence].
Qed.

Lemma handleUpdateItem_replaces_witness :
  ∃ bill',
    handleUpdateItem (mkItem "i2" 45000) (editing normalBill)
    = setCurrentBill (Some bill') (editing normalBill)
    ∧ extractedItems bill' = [mkItem "i1" 20000; mkItem "i2" 45000].
Proof.
  destruct (handleUpdateItem_replaces (editing normalBill) normalBill
              (mkItem "i2" 45000) eq_refl)
    as (bill' & Heq & _ & _ & _ & _ & _ & _ & Hone).
  exists bill'. split; [done|].
  apply (Hone ltac:(by_evaluation) 1%nat (mkItem "i2" 30000)); reflexivity.
Defined.

(** ** Participants and the engine *)





(** X18.  When the participant ids are pairwise distinct, assigning an item
    of the bill to a participant of the bill puts the item in that
    participant's share and in no other. *)
Theorem assigned_item_is_charged bill item p :
  NoDup (participantIds bill) →
  item ∈ extractedItems bill →
  p ∈ participants bill →
  participant_id p ≠ EmptyString →
  ∃ share,
    share ∈ calculateShares
              (Some (assignItem (item_id item) (Some (participant_id p)) bill))
    ∧ participantId share = participant_id p
    ∧ item ∈ items share
    ∧ ∀ other,
        other ∈ calculateShares
                  (Some (assignItem (item_id item) (Some (participant_id p)) bill)) →
        item ∈ items other → participantId other = participant_id p.
Proof.
  intros Hnd Hitem Hp Hid.
  set (bill' := assignItem (item_id item) (Some (participant_id p)) bill).
  assert (assignedParticipant (itemAssignments bill') (item_id item)
          = Some (participant_id p)) as Ha.
  { unfold assignedParticipant, bill', assignItem. simpl.
    rewrite lookup_insert_eq. by rewrite decide_False. }
  assert (∀ share, share ∈ calculateShares (Some bill') →
                   items share = itemsAssignedTo bill' (participantId share))
    as Hitems.
  { intros share Hin. by apply calculateShares_items_distinct. }
  apply list_elem_of_lookup in Hp as [i Hi].
  destruct (Forall2_lookup_l _ _ _ i p (calculateShares_identities bill'))
    as (share & Hshare & Hsid & _); [exact Hi|].
  apply list_elem_of_lookup_2 in Hshare.
  exists share. split_and!; [done|done| |].
  - rewrite (Hitems share Hshare), Hsid. unfold itemsAssignedTo.
    by apply list_elem_of_filter.
  - intros other Hother Hin. rewrite (Hitems other Hother) in Hin.
    apply list_elem_of_filter in Hin as [Hin _]. congruence.
Qed.

Lemma assigned_item_is_charged_witness :
  ∃ share,
    share ∈ calculateShares (Some (assignItem "i2" (Some "A") partlyAssignedBill))
    ∧ participantId share = "A"
    ∧ mkItem "i2" 30000 ∈ items share.
Proof.
  destruct (assigned_item_is_charged partlyAssignedBill (mkItem "i2" 30000)
              (mkParticipant "A"))
    as (share & Hin & Hid & Hitem & _).
  - by_evaluation.
  - by_evaluation.
  - by_evaluation.
  - done.
  - exists share. by split_and!.
Defined.

(** ** Handlers that depend on the platform *)

Section PlatformHandlers.
Context (trim toLowerCase : string → string).
Context (DEFAULT_SERVICE_FEE_PERCENTAGE : Qc).

(** [handleAddParticipant] on a bill in progress: a name that is empty
    once trimmed only clears the messages; a name already there up to case
    is refused with a message and the bill is unchanged; otherwise the
    trimmed name is appended to the participants under the new id, the input
    is emptied, and items, assignments and fees are unchanged. *)
Theorem handleAddParticipant_cases newId st bill :
  currentBill st = Some bill →
  (trim (participantNameInput st) = EmptyString →
   handleAddParticipant trim toLowerCase newId st = clearMessages st)
  ∧ (trim (participantNameInput st) ≠ EmptyString →
     (∃ p, p ∈ participants bill
           ∧ toLowerCase (participant_name p)
             = toLowerCase (trim (participantNameInput st))) →
     handleAddParticipant trim toLowerCase newId st
     = setErrorMessage "Participant with this name already exists."
         (clearMessages st))
  ∧ (trim (participantNameInput st) ≠ EmptyString →
     (∀ p, p ∈ participants bill →
           toLowerCase (participant_name p)
           ≠ toLowerCase (trim (participantNameInput st))) →
     handleAddParticipant trim toLowerCase newId st
     = setParticipantNameInput EmptyString
         (setCurrentBill
            (Some (withParticipants
                     (participants bill
                      ++ [{| participant_id := newId;
                             participant_name := trim (participantNameInput st) |}])
                     bill))
            (clearMessages st))).
Proof.
  intros Hcur. unfold handleAddParticipant. rewrite Hcur. split_and!.
  - intros Hempty. by rewrite decide_True.
  - intros Hname (p & Hp & Hsame). rewrite decide_False by done.
    rewrite bool_decide_eq_true_2; [done|].
    by eapply list_find_elem_of.
  - intros Hname Hnew. rewrite decide_False by done.
    rewrite bool_decide_eq_false_2; [done|].
    intros [[i p] Hfind]. apply list_find_Some in Hfind as (Hp & Hsame & _).
    eapply Hnew; [|exact Hsame]. by eapply list_elem_of_lookup_2.
Qed.

End PlatformHandlers.

Lemma handleAddParticipant_cases_witness :
  handleAddParticipant (λ s, s) (λ s, s) "p1"
    (setParticipantNameInput "A" (editing normalBill))
  = setErrorMessage "Participant with this name already exists."
      (clearMessages (setParticipantNameInput "A" (editing normalBill))).
Proof.
  apply (proj1 (proj2 (handleAddParticipant_cases (λ s, s) (λ s, s) "p1"
                         (setParticipantNameInput "A" (editing normalBill))
                         normalBill eq_refl))).
  - done.
  - exists (mkParticipant "A"). split; [by_evaluation|reflexivity].
Defined.


(** ** Analysis and sharing *)

Lemma imap_prices (freshId : nat → string) (l : list GeminiParsedResponseItem)
    (j : nat) :
  price <$> imap (λ k item,
                    {| item_id := freshId (j + k)%nat;
                       item_name := parsed_name item;
                       quantity := parsed_quantity item;
                       price := parsed_price item |}) l
  = parsed_price <$> l.
Proof.
  revert j. induction l as [|x l IH]; intros j; [done|].
  rewrite imap_cons, !fmap_cons. f_equal.
  etrans; [|apply (IH (S j))]. f_equal. apply imap_ext. intros k item _. simpl.
  by rewrite Nat.add_succ_r.
Qed.

(** X20.  [updateBillFromAnalysis] always leaves a bill in progress.  Its
    items are the analyzer's items in order, each with the analyzer's name,
    quantity and price, the k-th under the k-th fresh id, so its subtotal is
    the sum of the analyzer's prices; tax and service fee are the
    analyzer's, or 0 when absent; the subtotal and the total the analyzer
    reports are not used.  A bill already in progress keeps its id,
    participants and assignments (its former items are dropped); without
    one, the bill is created under the given id with no participant and no
    assignment. *)
Theorem updateBillFromAnalysis_result analysis billId now today freshId st :
  ∃ bill',
    currentBill (updateBillFromAnalysis analysis billId now today freshId st)
    = Some bill'
    ∧ item_id <$> extractedItems bill'
      = freshId <$> seq 0 (length (parsed_items analysis))
    ∧ Forall2 (λ item parsed,
                 item_name item = parsed_name parsed
                 ∧ quantity item = parsed_quantity parsed
                 ∧ price item = parsed_price parsed)
              (extractedItems bill') (parsed_items analysis)
    ∧ billSubtotal bill' = sumOf parsed_price (parsed_items analysis)
    ∧ taxAmount bill' = default 0 (parsed_tax analysis)
    ∧ serviceFeeAmount bill' = default 0 (parsed_serviceFee analysis)
    ∧ (∀ subtotal' total',
         updateBillFromAnalysis
           {| parsed_items := parsed_items analysis;
              parsed_subtotal := subtotal';
              parsed_tax := parsed_tax analysis;
              parsed_serviceFee := parsed_serviceFee analysis;
              parsed_total := total' |} billId now today freshId st
         = updateBillFromAnalysis analysis billId now today freshId st)
    ∧ (∀ bill, currentBill st = Some bill →
               bill_id bill' = bill_id bill
               ∧ participants bill' = participants bill
               ∧ itemAssignments bill' = itemAssignments bill)
    ∧ (currentBill st = None →
       bill_id bill' = billId ∧ participants bill' = []
       ∧ itemAssignments bill' = ∅).
Proof.
  unfold updateBillFromAnalysis. eexists. split; [reflexivity|]. simpl.
  assert (∀ j, Forall2 (λ item parsed,
                     item_name item = parsed_name parsed
                     ∧ quantity item = parsed_quantity parsed
                     ∧ price item = parsed_price parsed)
                  (imap (λ k item,
                           {| item_id := freshId (j + k)%nat;
                              item_name := parsed_name item;
                              quantity := parsed_quantity item;
                              price := parsed_price item |})
                        (parsed_items analysis))
                  (parsed_items analysis)) as Hitems.
  { induction (parsed_items analysis) as [|x l IH]; intros j; [constructor|].
    rewrite imap_cons. constructor; [done|].
    erewrite imap_ext; [apply (IH (S j))|].
    intros k item _. simpl. by rewrite Nat.add_succ_r. }
  split_and!; try done.
  - exact (imap_fresh_ids freshId (parsed_items analysis) 0).
  - exact (Hitems 0%nat).
  - unfold billSubtotal. simpl. apply sumOf_ext_fmap.
    exact (imap_prices freshId (parsed_items analysis) 0).
  - intros bill Hcur. by rewrite Hcur.
  - intros Hcur. by rewrite Hcur.
Qed.

Lemma calculateShares_nil currentBill :
  calculateShares currentBill = [] ↔
  ∀ bill, currentBill = Some bill → participants bill = [].
Proof.
  destruct currentBill as [bill|]; [|by split].
  pose proof (Forall2_length _ _ _ (calculateShares_identities bill)) as Hlen.
  split.
  - intros Hnil other [= <-]. rewrite Hnil in Hlen. by destruct (participants bill).
  - intros Hps. by apply calculateShares_no_participants, Hps.
Qed.

(** X21.  [handleShareToWhatsApp] changes nothing but one message: it sets
    the success message exactly when the summary has a share to show, and an
    error message otherwise.  For a bill in progress (nothing opened from
    the history) that is exactly when the bill has a participant. *)
Theorem handleShareToWhatsApp_cases st :
  (summaryShares st ≠ [] →
   handleShareToWhatsApp st
   = setSuccessMessage
       "Bill details prepared for WhatsApp. If it didn't open, ensure WhatsApp is accessible."
       st)
  ∧ (summaryShares st = [] →
     ∃ message,
       message ≠ EmptyString
       ∧ handleShareToWhatsApp st = setErrorMessage message st)
  ∧ (viewingBillDetails st = None →
     summaryShares st ≠ [] ↔
     ∃ bill, currentBill st = Some bill ∧ participants bill ≠ []).
Proof.
  split_and!.
  - intros Hshares. unfold handleShareToWhatsApp.
    destruct (viewingBillDetails st) as [viewed|] eqn:Hv;
      destruct (currentBill st) as [bill|] eqn:Hcur;
      try (rewrite bool_decide_eq_false_2; [done|];
           by rewrite length_zero_iff_nil').
    exfalso. apply Hshares. unfold summaryShares. by rewrite Hv, Hcur.
  - intros Hshares. unfold handleShareToWhatsApp.
    destruct (viewingBillDetails st) as [viewed|] eqn:Hv;
      destruct (currentBill st) as [bill|] eqn:Hcur;
      try rewrite bool_decide_eq_true_2 by (by rewrite Hshares);
      (eexists; split; [|reflexivity]; done).
  - intros Hv. unfold summaryShares. rewrite Hv. rewrite calculateShares_nil.
    split.
    + intros Hne. destruct (currentBill st) as [bill|]; [|by destruct Hne].
      exists bill. split; [done|]. intros Hps. apply Hne. by intros ? [= <-].
    + intros (bill & -> & Hps) Hnil. by apply Hps, Hnil.
Qed.

Lemma handleShareToWhatsApp_cases_witness :
  handleShareToWhatsApp summarizing
  = setSuccessMessage
      "Bill details prepared for WhatsApp. If it didn't open, ensure WhatsApp is accessible."
      summarizing.
Proof.
  apply (proj1 (handleShareToWhatsApp_cases summarizing)).
  by_evaluation.
Defined.

(** ** The summary screen *)

Section Screens.
Context (trim toLowerCase : string → string).
Context (DEFAULT_SERVICE_FEE_PERCENTAGE : Qc).

Local Abbreviation step := (step trim toLowerCase DEFAULT_SERVICE_FEE_PERCENTAGE).
Local Abbreviation run := (run trim toLowerCase DEFAULT_SERVICE_FEE_PERCENTAGE).

Lemma step_summaryHasBill ev st : summaryHasBill st → summaryHasBill (step ev st).
Proof.
  unfold summaryHasBill, billToDisplay. intros Hst.
  destruct ev; simpl;
    unfold mountEffect, handleImageUpload, onloadend, analysisResolved,
      updateBillFromAnalysis, analysisRejected, handleAddParticipant,
      handleRemoveParticipant,
      handleUpdateItem, handleAddItem, handleRemoveItem, handleAssignItem,
      handleUpdateTax, handleSetDefaultServiceFee, handleUpdateServiceFee,
      handleViewSummary, handleSaveBill, startNewBill, viewBillFromHistory,
      handleDeleteBill, handleClearHistory, handleShareToWhatsApp, showHistory,
      summaryBack, editBack;
    simpl;
    destruct (viewingBillDetails st) as [viewed|] eqn:Hv;
    destruct (currentBill st) as [bill|] eqn:Hcur;
    simpl; repeat case_match; simpl in *; rewrite ?Hv, ?Hcur;
    try done; try (by eexists); try (intros Hs; by apply Hst); try congruence.
Qed.

(** X22.  In every run from the initial state, whenever the step is
    VIEW_SUMMARY there is a bill to display, opened from the history or in
    progress: the branch of [renderSummaryStep] for a missing bill is never
    taken. *)
Theorem summary_always_has_a_bill evs storage :
  summaryHasBill (run evs (initialState storage)).
Proof.
  assert (∀ st, summaryHasBill st → summaryHasBill (run evs st)) as Hrun.
  { induction evs as [|ev evs IH]; intros st Hst; [done|].
    apply IH. by apply step_summaryHasBill. }
  apply Hrun. by intros Hstep.
Qed.
End Screens.
